(** * Poorman: a hand-written HTTP/1.1 server (main.go)

    A shallow embedding of the request parser [NewRequest], the response
    serializer [NewResponse], the router [Router.Mux] and the connection
    handler [handleAccept], together with the parts of the Go standard
    library they call ([strings], [strconv], [bufio], [io], [net/http]).

    Conventions.
    - A Go [string] is an immutable sequence of bytes: [list ascii].
      String literals are read through [list_ascii_of_string].
    - Go's [int] is the 64-bit signed integer of a 64-bit target; it is
      modelled in [Z] and every place where its range matters (the
      conversions of [strconv]) writes the bound out.
    - A run of the program ends in a value, in a returned [error], or in a
      run-time panic; [outcome] keeps the three apart. *)

From Stdlib Require Import Ascii String ZArith DecimalString DecimalPos.
From stdpp Require Import gmap strings list.
From Equations Require Import Equations.

Local Open Scope Z_scope.

(** ** Go strings *)

Abbreviation gostring := (list ascii).

Coercion list_ascii_of_string : string >-> list.

Definition CR : ascii := "013"%char.
Definition LF : ascii := "010"%char.
Definition CRLF : gostring := [CR; LF].

(** [len(s)] as a Go [int]. *)
Definition len (s : gostring) : Z := Z.of_nat (length s).

(** The numeric value of a byte. *)
Definition code (c : ascii) : Z := Z.of_N (N_of_ascii c).

Module strings.

(** [strings.HasSuffix(s, suffix)]:
    [len(s) >= len(suffix) && s[len(s)-len(suffix):] == suffix]. *)
Definition HasSuffix (s suffix : gostring) : bool :=
  bool_decide (length suffix ≤ length s)%nat &&
  bool_decide (drop (length s - length suffix) s = suffix).

(** [strings.TrimSuffix(s, suffix)]: [s] without the trailing [suffix],
    or [s] itself when it does not end with [suffix]. *)
Definition TrimSuffix (s suffix : gostring) : gostring :=
  if HasSuffix s suffix then take (length s - length suffix) s else s.

(** [strings.IndexByte(s, c)]: the index of the first [c] in [s];
    Go's [-1] is [None]. *)
Fixpoint IndexByte (s : gostring) (c : ascii) : option nat :=
  match s with
  | [] => None
  | x :: s' => if bool_decide (x = c) then Some 0%nat
               else S <$> IndexByte s' c
  end.

(** [strings.Count(s, sep)] for a one-byte separator. *)
Fixpoint Count (s : gostring) (sep : ascii) : nat :=
  match s with
  | [] => 0%nat
  | x :: s' => if bool_decide (x = sep) then S (Count s' sep) else Count s' sep
  end.

(** The loop of [genSplit]: at most [cuts] cuts, each at the first
    separator of what is left; the last element is the remainder.
<<
    for i < n { m := Index(s, sep); if m < 0 { break }
                a[i] = s[:m]; s = s[m+len(sep):]; i++ }
    a[i] = s
>> *)
Fixpoint genSplit (s : gostring) (sep : ascii) (cuts : nat) : list gostring :=
  match cuts with
  | O => [s]
  | S cuts' =>
      match IndexByte s sep with
      | None => [s]
      | Some m => take m s :: genSplit (drop (S m) s) sep cuts'
      end
  end.

(** [strings.Split(s, sep)] = [genSplit(s, sep, 0, -1)]: the number of
    pieces is [Count(s, sep) + 1]. Both call sites of the program pass a
    one-byte separator. *)
Definition Split (s : gostring) (sep : ascii) : list gostring :=
  genSplit s sep (Count s sep).

(** [strings.SplitN(s, sep, n)]: [nil] for [n = 0], every piece for
    [n < 0], at most [n] pieces otherwise ([n] is clamped to
    [len(s) + 1] by [genSplit]). *)
Definition SplitN (s : gostring) (sep : ascii) (n : Z) : list gostring :=
  if n =? 0 then []
  else if n <? 0 then genSplit s sep (Count s sep)
  else genSplit s sep (Nat.min (Z.to_nat n) (S (length s)) - 1).

(** *** [strings.TrimSpace]

    [TrimSpace] removes leading and trailing white space as defined by
    Unicode, decoding the string as UTF-8. The white-space code points
    ([unicode.IsSpace]) are the six ASCII ones and U+0085, U+00A0,
    U+1680, U+2000..U+200A, U+2028, U+2029, U+202F, U+205F, U+3000.
    Each of the latter has one (shortest-form) UTF-8 encoding, of two or
    three bytes, and a byte sequence decodes to such a code point exactly
    when it is that encoding; any other sequence decodes to a code point
    that is not white space ([RuneError] for an invalid one). Decoding
    from the front ([DecodeRuneInString]) or from the back
    ([DecodeLastRuneInString]) therefore comes down to recognising these
    byte patterns at the front or at the back of the string. *)

Definition asciiSpace (c : ascii) : bool :=
  bool_decide (c ∈ ["009"; "010"; "011"; "012"; "013"; " "]%char).

(** Two-byte encodings: U+0085 = C2 85, U+00A0 = C2 A0. *)
Definition space2 (c1 c2 : ascii) : bool :=
  bool_decide (code c1 = 0xC2) &&
  bool_decide (code c2 ∈ [0x85; 0xA0]).

(** Three-byte encodings: U+1680 = E1 9A 80, U+2000..U+200A = E2 80 80
    .. E2 80 8A, U+2028 = E2 80 A8, U+2029 = E2 80 A9, U+202F = E2 80 AF,
    U+205F = E2 81 9F, U+3000 = E3 80 80. *)
Definition space3 (c1 c2 c3 : ascii) : bool :=
  bool_decide (code c1 = 0xE1 ∧ code c2 = 0x9A ∧ code c3 = 0x80)
  || bool_decide (code c1 = 0xE2 ∧ code c2 = 0x80 ∧
                  (0x80 ≤ code c3 ≤ 0x8A ∨ code c3 ∈ [0xA8; 0xA9; 0xAF]))
  || bool_decide (code c1 = 0xE2 ∧ code c2 = 0x81 ∧ code c3 = 0x9F)
  || bool_decide (code c1 = 0xE3 ∧ code c2 = 0x80 ∧ code c3 = 0x80).

(** Drop white-space code points from the front of [s], as long as there
    is one; [r2] and [r3] recognise the two- and three-byte patterns. *)
Fixpoint dropSpaces (r2 : ascii → ascii → bool)
    (r3 : ascii → ascii → ascii → bool) (s : gostring) : gostring :=
  match s with
  | [] => []
  | c1 :: s1 =>
      if asciiSpace c1 then dropSpaces r2 r3 s1 else
      match s1 with
      | [] => s
      | c2 :: s2 =>
          if r2 c1 c2 then dropSpaces r2 r3 s2 else
          match s2 with
          | [] => s
          | c3 :: s3 => if r3 c1 c2 c3 then dropSpaces r2 r3 s3 else s
          end
      end
  end.

(** [TrimLeftFunc(s, unicode.IsSpace)]. *)
Definition TrimLeftSpace (s : gostring) : gostring :=
  dropSpaces space2 space3 s.

(** [TrimRightFunc(s, unicode.IsSpace)]: the same scan from the back,
    where the bytes of a pattern are met last byte first. *)
Definition TrimRightSpace (s : gostring) : gostring :=
  rev (dropSpaces (λ c2 c1, space2 c1 c2) (λ c3 c2 c1, space3 c1 c2 c3) (rev s)).

Definition TrimSpace (s : gostring) : gostring :=
  TrimRightSpace (TrimLeftSpace s).

End strings.

(** ** strconv *)

Module strconv.

(** The [Err] field of a [*strconv.NumError]. *)
Inductive NumError := ErrSyntax | ErrRange.

Definition maxUint64 : Z := 2 ^ 64 - 1.

Definition isDigit (c : ascii) : bool :=
  (code "0" <=? code c) && (code c <=? code "9").

(** The digit loop of [ParseUint(s, 10, 64)], [n] being the value read so
    far. [cutoff] is the smallest number whose tenfold exceeds
    [maxUint64]; the sum [n*10 + d] is computed in [uint64], hence the
    wrap-around and the test [n1 < n].
<<
    if n >= cutoff { return maxVal, rangeError }
    n *= uint64(base)
    n1 := n + uint64(d)
    if n1 < n || n1 > maxVal { return maxVal, rangeError }
    n = n1
>> *)
Fixpoint parseDigits (s : gostring) (n : Z) : NumError + Z :=
  match s with
  | [] => inr n
  | c :: s' =>
      if negb (isDigit c) then inl ErrSyntax else
      let d := code c - code "0" in
      let cutoff := maxUint64 / 10 + 1 in
      if n >=? cutoff then inl ErrRange else
      let n10 := (n * 10) mod 2 ^ 64 in
      let n1 := (n10 + d) mod 2 ^ 64 in
      if (n1 <? n10) || (n1 >? maxUint64) then inl ErrRange
      else parseDigits s' n1
  end.

(** [ParseUint(s, 10, 64)]. In base 10 an underscore is a syntax error
    like any other non-digit. *)
Definition ParseUint (s : gostring) : NumError + Z :=
  match s with
  | [] => inl ErrSyntax
  | _ => parseDigits s 0
  end.

(** [ParseInt(s, 10, 0)]: an optional sign, then [ParseUint], then the
    range of a signed 64-bit integer. *)
Definition ParseInt (s : gostring) : NumError + Z :=
  match s with
  | [] => inl ErrSyntax
  | c :: s' =>
      let neg := bool_decide (c = "-"%char) in
      let digits := if bool_decide (c = "+"%char) || neg then s' else s in
      match ParseUint digits with
      | inl e => inl e
      | inr un =>
          let cutoff := 2 ^ 63 in
          if negb neg && (un >=? cutoff) then inl ErrRange
          else if neg && (un >? cutoff) then inl ErrRange
          else inr (if neg then - un else un)
      end
  end.

(** [strconv.Atoi(s)] is [ParseInt(s, 10, 0)] converted to [int]; its
    fast path for short inputs returns the same value and the same kind
    of error. *)
Definition Atoi (s : gostring) : NumError + Z := ParseInt s.

(** The verb [%d] of [fmt.Sprintf] applied to an [int], and
    [strconv.Itoa]: a minus sign for a negative number, then the decimal
    digits without leading zeros. *)
Definition Itoa (i : Z) : gostring :=
  list_ascii_of_string (NilZero.string_of_int (Z.to_int i)).

End strconv.

(** ** Results of a run *)

(** What a read returns besides data: [io.EOF], [io.ErrUnexpectedEOF], or
    an error of the network stack (a reset connection, say). *)
Inductive io_error := EOF | ErrUnexpectedEOF | ErrNet.

Global Instance io_error_eq_dec : EqDecision io_error.
Proof. solve_decision. Defined.

(** The four errors [NewRequest] returns, by the place they come from:
    - [MalformedRequestLine err]: [return nil, err] after the first
      [ReadString] (line 78);
    - [HeaderReadError err]: ["error when reading request header: %v"]
      (line 97);
    - [InvalidContentLength err]: ["error invalid Content-Length header %v"]
      (line 116);
    - [TruncatedBody err]: ["error invalid body %v"] (line 123). *)
Inductive error :=
| MalformedRequestLine (err : io_error)
| HeaderReadError (err : io_error)
| InvalidContentLength (err : strconv.NumError)
| TruncatedBody (err : io_error).

(** Run-time panics: an index expression out of range
    ([index out of range [i] with length n]) and [make] with a bad length
    ([makeslice: len out of range]). *)
Inductive panic :=
| IndexOutOfRange (i n : nat)
| MakesliceLenOutOfRange.

Inductive outcome (A : Type) :=
| Ok (a : A)
| Err (e : error)
| Panic (p : panic).
Arguments Ok {A} a.
Arguments Err {A} e.
Arguments Panic {A} p.

Global Instance outcome_ret : MRet outcome := λ A a, Ok a.
Global Instance outcome_bind : MBind outcome := λ A B k x,
  match x with
  | Ok a => k a
  | Err e => Err e
  | Panic p => Panic p
  end.

Global Instance outcome_fmap : FMap outcome := λ A B f x,
  match x with
  | Ok a => Ok (f a)
  | Err e => Err e
  | Panic p => Panic p
  end.

(** An index expression [a[i]]. *)
Definition index {A} (a : list A) (i : nat) : outcome A :=
  match a !! i with
  | Some x => Ok x
  | None => Panic (IndexOutOfRange i (length a))
  end.

(** The largest size of one allocation in the gc runtime of a 64-bit
    target ([maxAlloc = 1 << heapAddrBits], 48 address bits). *)
Definition maxAlloc : Z := 2 ^ 48.

(** [make([]byte, n)]: [makeslice] panics when [n < 0] or [n > maxAlloc];
    otherwise the buffer is allocated (the memory is taken to be there).
    The result is the length of the zeroed buffer. *)
Definition make_bytes (n : Z) : outcome nat :=
  if (n <? 0) || (n >? maxAlloc) then Panic MakesliceLenOutOfRange
  else Ok (Z.to_nat n).

(** ** bufio and io *)

(** A [bufio.Reader] on a connection, seen from its reader: the bytes the
    peer sends from here on, and what [Read] reports once they are used up
    ([EOF] when the peer closed its side, [ErrNet] when the connection
    broke). Only finite streams are modelled: a peer that stops sending
    and keeps the connection open blocks the read forever. *)
Record Reader := mkReader { pending : gostring; ending : io_error }.

(** [reader.ReadString(delim)]: the bytes up to and including the first
    [delim]; when the stream ends before a [delim], the bytes read so far
    together with the error. *)
Definition ReadString (r : Reader) (delim : ascii)
    : gostring * option io_error * Reader :=
  match strings.IndexByte (pending r) delim with
  | Some i => (take (S i) (pending r), None,
               mkReader (drop (S i) (pending r)) (ending r))
  | None => (pending r, Some (ending r), mkReader [] (ending r))
  end.

(** [io.ReadFull(reader, buf)] with [len(buf) = n]: exactly [n] bytes, or
    an error: [io.EOF] (or the stream's error) when no byte could be
    read, [io.ErrUnexpectedEOF] when the stream ended after some but not
    all. With [n = 0] nothing is read. *)
Definition ReadFull (r : Reader) (n : nat)
    : gostring * option io_error * Reader :=
  if bool_decide (n ≤ length (pending r))%nat
  then (take n (pending r), None, mkReader (drop n (pending r)) (ending r))
  else (pending r,
        Some (match pending r, ending r with
              | _ :: _, EOF => ErrUnexpectedEOF
              | _, e => e
              end),
        mkReader [] (ending r)).

(** ** net/http *)

(** [http.StatusText(code)]: the reason phrase of a registered status
    code, the empty string for any other number. *)
Definition StatusText (status : Z) : gostring :=
  match status with
  | 100 => "Continue"
  | 101 => "Switching Protocols"
  | 102 => "Processing"
  | 103 => "Early Hints"
  | 200 => "OK"
  | 201 => "Created"
  | 202 => "Accepted"
  | 203 => "Non-Authoritative Information"
  | 204 => "No Content"
  | 205 => "Reset Content"
  | 206 => "Partial Content"
  | 207 => "Multi-Status"
  | 208 => "Already Reported"
  | 226 => "IM Used"
  | 300 => "Multiple Choices"
  | 301 => "Moved Permanently"
  | 302 => "Found"
  | 303 => "See Other"
  | 304 => "Not Modified"
  | 305 => "Use Proxy"
  | 307 => "Temporary Redirect"
  | 308 => "Permanent Redirect"
  | 400 => "Bad Request"
  | 401 => "Unauthorized"
  | 402 => "Payment Required"
  | 403 => "Forbidden"
  | 404 => "Not Found"
  | 405 => "Method Not Allowed"
  | 406 => "Not Acceptable"
  | 407 => "Proxy Authentication Required"
  | 408 => "Request Timeout"
  | 409 => "Conflict"
  | 410 => "Gone"
  | 411 => "Length Required"
  | 412 => "Precondition Failed"
  | 413 => "Request Entity Too Large"
  | 414 => "Request URI Too Long"
  | 415 => "Unsupported Media Type"
  | 416 => "Requested Range Not Satisfiable"
  | 417 => "Expectation Failed"
  | 418 => "I'm a teapot"
  | 421 => "Misdirected Request"
  | 422 => "Unprocessable Entity"
  | 423 => "Locked"
  | 424 => "Failed Dependency"
  | 425 => "Too Early"
  | 426 => "Upgrade Required"
  | 428 => "Precondition Required"
  | 429 => "Too Many Requests"
  | 431 => "Request Header Fields Too Large"
  | 451 => "Unavailable For Legal Reasons"
  | 500 => "Internal Server Error"
  | 501 => "Not Implemented"
  | 502 => "Bad Gateway"
  | 503 => "Service Unavailable"
  | 504 => "Gateway Timeout"
  | 505 => "HTTP Version Not Supported"
  | 506 => "Variant Also Negotiates"
  | 507 => "Insufficient Storage"
  | 508 => "Loop Detected"
  | 510 => "Not Extended"
  | 511 => "Network Authentication Required"
  | _ => ""
  end.

(** ** main.go *)

(** [type Req struct]. *)
Record Req := mkReq {
  Method : gostring;
  URI : gostring;
  Headers : gmap gostring gostring;
  Body : gostring
}.

(** A [net.Conn]: what the peer sends ([incoming], ended by [hangup]),
    what has been written to it, and how many times [Close] was called. *)
Record Conn := mkConn {
  incoming : gostring;
  hangup : io_error;
  written : gostring;
  closes : nat
}.

(** [bufio.NewReader(conn)]. *)
Definition NewReader (conn : Conn) : Reader :=
  mkReader (incoming conn) (hangup conn).

Definition inspect {A} (a : A) : {b : A | a = b} := exist _ a eq_refl.

(** The header loop of [NewRequest] (lines 90-110). Every turn that goes
    on has read a line ending in a line feed, so the stream gets shorter.
<<
    for {
        headerLine, err := reader.ReadString('\n')
        if err != nil {
            if err == io.EOF { break }
            return nil, fmt.Errorf("error when reading request header: %v", err)
        }
        headerLine = strings.TrimSuffix(headerLine, "\r\n")
        if headerLine == "" { break }
        headerSection := strings.SplitN(headerLine, ":", 2)
        if len(headerSection) == 2 {
            headers[strings.TrimSpace(headerSection[0])] = strings.TrimSpace(headerSection[1])
        }
    }
>> *)
Equations? readHeaders (reader : Reader) (headers : gmap gostring gostring)
    : outcome (gmap gostring gostring * Reader)
    by wf (length (pending reader)) lt :=
readHeaders reader headers with inspect (ReadString reader LF) := {
  | exist _ (_, Some err, reader') _ =>
      match err with
      | EOF => Ok (headers, reader')
      | _ => Err (HeaderReadError err)
      end
  | exist _ (headerLine, None, reader') _ =>
      let headerLine := strings.TrimSuffix headerLine CRLF in
      if bool_decide (headerLine = []) then Ok (headers, reader') else
      match strings.SplitN headerLine ":" 2 with
      | [name; value] =>
          readHeaders reader'
            (<[strings.TrimSpace name := strings.TrimSpace value]> headers)
      | _ => readHeaders reader' headers
      end }.
Proof.
  all: unfold ReadString in *;
    destruct (strings.IndexByte (pending reader) LF) as [i|] eqn:Hi;
    simplify_eq/=;
    assert (i < length (pending reader))%nat
      by (clear -Hi; revert i Hi; induction (pending reader) as [|x s IH];
          intros i Hi; simplify_eq/=; case_bool_decide; simplify_eq/=;
          [lia|]; destruct (strings.IndexByte s LF); simplify_eq/=;
          specialize (IH _ eq_refl); lia);
    rewrite length_drop; lia.
Qed.

(** [NewRequest] (lines 71-136), in the three steps the source marks:
    the request line and the headers ([readHead], lines 75-110), the body
    ([readBody], lines 113-128), and the result (lines 130-135). *)
Definition readHead (conn : Conn)
    : outcome (gostring * gostring * gmap gostring gostring * Reader) :=
  let reader := NewReader conn in
  let '(line, err, reader) := ReadString reader LF in
  match err with
  | Some err => Err (MalformedRequestLine err)
  | None =>
      let line := strings.TrimSuffix line CRLF in
      let sliceOfLine := strings.Split (strings.TrimSpace line) " " in
      method ← index sliceOfLine 0;
      uri ← index sliceOfLine 1;
      '(headers, reader) ← readHeaders reader ∅;
      Ok (method, uri, headers, reader)
  end.

Definition readBody (headers : gmap gostring gostring) (reader : Reader)
    : outcome gostring :=
  match headers !! ("Content-Length" : gostring) with
  | Some contentLength =>
      match strconv.Atoi contentLength with
      | inl err => Err (InvalidContentLength err)
      | inr length =>
          n ← make_bytes length;
          let '(body, err, _) := ReadFull reader n in
          match err with
          | Some err => Err (TruncatedBody err)
          | None => Ok body
          end
      end
  | None => Ok []
  end.

Definition NewRequest (conn : Conn) : outcome Req :=
  '(method, uri, headers, reader) ← readHead conn;
  reqBody ← readBody headers reader;
  Ok (mkReq method uri headers reqBody).

(** [NewResponse] (lines 149-155). *)
Definition NewResponse (status : Z) (data contentType : gostring) : gostring :=
  let responseStatus :=
    "HTTP/1.1 " ++ strconv.Itoa status ++ " " ++ StatusText status ++ CRLF in
  let responseContentType := "Content-Type: " ++ contentType ++ CRLF in
  let responseContentLength :=
    "Content-Length: " ++ strconv.Itoa (len data) ++ CRLF in
  responseStatus ++ responseContentType ++ responseContentLength ++ CRLF ++ data.

(** [type Router struct] and [type Service struct]. The connection is the
    one object the handlers write to and close; it is threaded through
    them inside the service. *)
Record Router := mkRouter { Router_Conn : Conn; Router_Req : Req }.

Record Service := mkService {
  Service_Router : Router;
  Service_Store : gmap gostring gostring
}.

(** [NewRouter] (lines 157-162) and [NewService] (lines 183-190). *)
Definition NewRouter (conn : Conn) (req : Req) : Router := mkRouter conn req.

Definition NewService (r : Router) : Service := mkService r ∅.

(** [conn.Write(b)]: the bytes go out unless the connection was closed
    (the error of a write after [Close] is dropped by every caller).
    [conn.Close()]: one more call of [Close]. *)
Definition Conn_Write (b : gostring) (c : Conn) : Conn :=
  if bool_decide (closes c = 0%nat)
  then mkConn (incoming c) (hangup c) (written c ++ b) (closes c)
  else c.

Definition Conn_Close (c : Conn) : Conn :=
  mkConn (incoming c) (hangup c) (written c) (S (closes c)).

Definition on_conn (f : Conn → Conn) (s : Service) : Service :=
  mkService
    (mkRouter (f (Router_Conn (Service_Router s))) (Router_Req (Service_Router s)))
    (Service_Store s).

(** What the program prints with [log.Println]. *)
Inductive log_entry :=
| LogRequestError (err : error)
| LogFileError (path : gostring)
| LogTemplateError
| LogStore (store : gmap gostring gostring)
| LogBody (body : gostring)
| LogUnmarshalError
| LogInput (input : gostring).

(** The collaborators of the handlers outside the program: the files
    [os.ReadFile] finds, the [text/template] engine ([Parse] accepts a
    text or not, [Execute] renders it or fails), and [json.Unmarshal] into
    [Data], which yields the field [Input] or fails. *)
Record Env := mkEnv {
  ReadFile : gostring → option gostring;
  template_Parse : gostring → bool;
  template_Execute : gostring → gmap gostring gostring → option gostring;
  json_Unmarshal : gostring → option gostring
}.

Definition StatusOK : Z := 200.

(** [handleIndexPage] (lines 192-221). The deferred [Close] is registered
    by the last statement, so only the path that reaches it closes. *)
Definition handleIndexPage (env : Env) (s : Service) (log : list log_entry)
    : Service * list log_entry :=
  let '(buffer, log) :=
    match ReadFile env "static/index.html" with
    | Some buffer => (buffer, log)
    | None => ([], log ++ [LogFileError "static/index.html"])
    end in
  if negb (template_Parse env buffer) then (s, log ++ [LogTemplateError]) else
  let log := log ++ [LogStore (Service_Store s)] in
  match template_Execute env buffer (Service_Store s) with
  | None => (s, log ++ [LogTemplateError])
  | Some templateBuffer =>
      let resp := NewResponse StatusOK templateBuffer "text/html" in
      let s := on_conn (Conn_Write resp) s in
      (on_conn Conn_Close s, log)
  end.

(** [handleAboutPage] (lines 223-232). *)
Definition handleAboutPage (env : Env) (s : Service) (log : list log_entry)
    : Service * list log_entry :=
  let '(buffer, log) :=
    match ReadFile env "static/about.html" with
    | Some buffer => (buffer, log)
    | None => ([], log ++ [LogFileError "static/about.html"])
    end in
  let resp := NewResponse StatusOK buffer "text/html" in
  let s := on_conn (Conn_Write resp) s in
  (on_conn Conn_Close s, log).

(** [handleInputData] (lines 238-255). *)
Definition handleInputData (env : Env) (s : Service) (log : list log_entry)
    : Service * list log_entry :=
  let body := Body (Router_Req (Service_Router s)) in
  let log := log ++ [LogBody body] in
  match json_Unmarshal env body with
  | None => (s, log ++ [LogUnmarshalError])
  | Some input =>
      let log := log ++ [LogInput input] in
      let s := mkService (Service_Router s)
                 (<[("data" : gostring) := input]> (Service_Store s)) in
      let resp := NewResponse StatusOK "success" "application/json" in
      let s := on_conn (Conn_Write resp) s in
      (on_conn Conn_Close s, log)
  end.

(** [Router.Mux] (lines 164-181). *)
Definition Mux (env : Env) (r : Router) (log : list log_entry)
    : Service * list log_entry :=
  let s := NewService r in
  let '(s, log) :=
    if bool_decide (Method (Router_Req r) = "GET") then
      let '(s, log) :=
        if bool_decide (URI (Router_Req r) = "/")
        then handleIndexPage env s log else (s, log) in
      if bool_decide (URI (Router_Req r) = "/about")
      then handleAboutPage env s log else (s, log)
    else (s, log) in
  if bool_decide (Method (Router_Req r) = "POST") then
    if bool_decide (URI (Router_Req r) = "/")
    then handleInputData env s log else (s, log)
  else (s, log).

(** [handleAccept] (lines 60-69): the connection and the log when the
    goroutine is done, or the panic that ends it. *)
Definition handleAccept (env : Env) (conn : Conn) (log : list log_entry)
    : outcome (Conn * list log_entry) :=
  match NewRequest conn with
  | Err err => Ok (conn, log ++ [LogRequestError err])
  | Panic p => Panic p
  | Ok req =>
      let '(s, log) := Mux env (NewRouter conn req) log in
      Ok (Router_Conn (Service_Router s), log)
  end.

(** ** Vocabulary of the specification *)

(** A connection just accepted, on which the peer sends [s] and then
    closes its side. *)
Definition fresh_conn (s : gostring) : Conn := mkConn s EOF [] 0.

(** The encoding of one white-space code point, as recognised by the
    tests [r2] and [r3] on two and three bytes, and a run of them. *)
Inductive rune (r2 : ascii → ascii → bool)
    (r3 : ascii → ascii → ascii → bool) : gostring → Prop :=
| rune_ascii c : strings.asciiSpace c = true → rune r2 r3 [c]
| rune_two c1 c2 : r2 c1 c2 = true → rune r2 r3 [c1; c2]
| rune_three c1 c2 c3 : r3 c1 c2 c3 = true → rune r2 r3 [c1; c2; c3].

Inductive blank (r2 : ascii → ascii → bool)
    (r3 : ascii → ascii → ascii → bool) : gostring → Prop :=
| blank_nil : blank r2 r3 []
| blank_rune w s : rune r2 r3 w → blank r2 r3 s → blank r2 r3 (w ++ s).

(** White space as [unicode.IsSpace] has it, in UTF-8. *)
Definition space_rune : gostring → Prop := rune strings.space2 strings.space3.
Definition white_space : gostring → Prop := blank strings.space2 strings.space3.

(** A visible ASCII character (0x21..0x7E): what methods, request targets
    and header names are made of. *)
Definition visible (c : ascii) : Prop := 0x21 ≤ code c ≤ 0x7E.

(** A header value as it stands in ["Name: value"]: no line feed inside,
    and no white space at either end (it may be empty). *)
Definition field_value (v : gostring) : Prop :=
  (LF ∉ v) ∧
  (match v with [] => True | c :: _ => visible c end) ∧
  (match rev v with [] => True | c :: _ => visible c end).

(** A header name: visible characters other than the colon. *)
Definition field_name (n : gostring) : Prop :=
  Forall (λ c, visible c ∧ c ≠ ":"%char) n.

Definition header_line (h : gostring * gostring) : gostring :=
  h.1 ++ ": " ++ h.2 ++ CRLF.

Definition header_lines (hs : list (gostring * gostring)) : gostring :=
  concat (header_line <$> hs).

(** The text of a request: request line, header lines, empty line, body. *)
Definition request_text (method uri : gostring)
    (hs : list (gostring * gostring)) (body : gostring) : gostring :=
  method ++ " " ++ uri ++ " HTTP/1.1" ++ CRLF ++ header_lines hs ++ CRLF ++ body.

(** What one header line adds to the mapping of a request. *)
Definition store_header (m : gmap gostring gostring) (h : gostring * gostring)
    : gmap gostring gostring :=
  <[h.1 := h.2]> m.

(** The value of the last header named [k] in a list of headers. *)
Definition last_header (k : gostring) (hs : list (gostring * gostring))
    : option gostring :=
  snd <$> last (filter (λ h, h.1 = k) hs).

(** The number a string of decimal digits denotes. *)
Fixpoint digits_value (s : gostring) (acc : Z) : option Z :=
  match s with
  | [] => Some acc
  | c :: s' =>
      if strconv.isDigit c then digits_value s' (acc * 10 + (code c - code "0"))
      else None
  end.

Definition decimal_value (s : gostring) : option Z :=
  match s with
  | [] => None
  | _ => digits_value s 0
  end.

(** The status codes [http.StatusText] knows. *)
Definition registered_codes : list Z :=
  [100; 101; 102; 103; 200; 201; 202; 203; 204; 205; 206; 207; 208; 226;
   300; 301; 302; 303; 304; 305; 307; 308;
   400; 401; 402; 403; 404; 405; 406; 407; 408; 409; 410; 411; 412; 413;
   414; 415; 416; 417; 418; 421; 422; 423; 424; 425; 426; 428; 429; 431; 451;
   500; 501; 502; 503; 504; 505; 506; 507; 508; 510; 511].

(** An environment with no files, a template engine that accepts nothing
    and a JSON decoder that accepts nothing. *)
Definition bare_env : Env :=
  mkEnv (λ _, None) (λ _, false) (λ _ _, None) (λ _, None).

(** The three routes of the program. *)
Definition routed (method uri : gostring) : Prop :=
  (method = "GET" ∧ uri = "/") ∨ (method = "GET" ∧ uri = "/about") ∨
  (method = "POST" ∧ uri = "/").

(** ** Vocabulary of the further properties *)

(** What the loop stores for a line with a colon: a name and a value with
    no white space at their ends, no line feed inside, and no colon in the
    name. *)
Definition header_entry (k v : gostring) : Prop :=
  strings.TrimSpace k = k ∧ strings.TrimSpace v = v
  ∧ (":"%char ∉ k) ∧ (LF ∉ k) ∧ (LF ∉ v).

(** A request that declares three bytes with a plus sign, followed by
    six bytes. *)
Definition sample_conn : Conn :=
  fresh_conn (request_text "POST" "/"
                [("Content-Length" : gostring, "+3" : gostring)] "abcdef").

Definition sample_headers : gmap gostring gostring :=
  foldl store_header ∅ [("Content-Length" : gostring, "+3" : gostring)].

(** The connection after a response was written to it and it was closed. *)
Definition answered (conn : Conn) (resp : gostring) : Conn :=
  mkConn (incoming conn) (hangup conn) (written conn ++ resp) 1.

(** The file read by a handler: its content, or nothing and a line in the
    log. *)
Definition file_or_empty (env : Env) (path : gostring) : gostring :=
  default [] (ReadFile env path).

Definition file_log (env : Env) (path : gostring) : list log_entry :=
  match ReadFile env path with
  | Some _ => []
  | None => [LogFileError path]
  end.

(** An environment with the page [static/about.html], a template engine
    that renders every text as it is, and a JSON decoder that accepts one
    body. *)
Definition sample_env : Env :=
  mkEnv (λ path, if bool_decide (path = "static/about.html")
                 then Some ("<p>about</p>" : gostring) else None)
        (λ _, true)
        (λ text _, Some text)
        (λ body, if bool_decide (body = "abc") then Some ("abc" : gostring)
                 else None).

(** What a handler leaves behind: the log with more lines, and the
    connection either untouched or answered with a 200 and closed. *)
Definition handled (s : Service) (log : list log_entry)
    (res : Service * list log_entry) : Prop :=
  (∃ more, res.2 = log ++ more)
  ∧ (Router_Conn (Service_Router res.1) = Router_Conn (Service_Router s)
     ∨ ∃ data contentType,
         Router_Conn (Service_Router res.1)
         = answered (Router_Conn (Service_Router s))
             (NewResponse 200 data contentType)).

(** * Sanity checks of the library model *)

Example TrimSpace_ex1 :
  strings.TrimSpace (" " ++ ["009"%char] ++ "GET / " ++ CRLF) = "GET /".
Proof. vm_compute. exact eq_refl. Qed.

(* U+00A0 and U+3000 around a word, a lone continuation byte kept. *)
Example TrimSpace_ex2 :
  strings.TrimSpace (["194"; "160"; "a"; "128"; "227"; "128"; "128"]%char)
  = ["a"; "128"]%char.
Proof. vm_compute. exact eq_refl. Qed.

Example Split_ex1 : strings.Split "GET  /x HTTP/1.1" " " = ["GET" : gostring; "" : gostring; "/x" : gostring; "HTTP/1.1" : gostring].
Proof. vm_compute. exact eq_refl. Qed.

Example Split_ex2 : strings.Split "" " " = ["" : gostring].
Proof. vm_compute. exact eq_refl. Qed.

Example SplitN_ex1 : strings.SplitN "a: b:c" ":" 2 = ["a" : gostring; " b:c" : gostring].
Proof. vm_compute. exact eq_refl. Qed.

Example SplitN_ex2 : strings.SplitN "abc" ":" 2 = ["abc" : gostring].
Proof. vm_compute. exact eq_refl. Qed.

Example Atoi_ex1 : strconv.Atoi "42" = inr 42.
Proof. vm_compute. exact eq_refl. Qed.

Example Atoi_ex2 : strconv.Atoi "-5" = inr (-5).
Proof. vm_compute. exact eq_refl. Qed.

Example Atoi_ex3 : strconv.Atoi "+5" = inr 5.
Proof. vm_compute. exact eq_refl. Qed.

Example Atoi_ex4 : strconv.Atoi "9223372036854775807" = inr (2 ^ 63 - 1).
Proof. vm_compute. exact eq_refl. Qed.

Example Atoi_ex5 : strconv.Atoi "9223372036854775808" = inl strconv.ErrRange.
Proof. vm_compute. exact eq_refl. Qed.

Example Atoi_ex6 : strconv.Atoi "-9223372036854775808" = inr (- 2 ^ 63).
Proof. vm_compute. exact eq_refl. Qed.

Example Atoi_ex7 : strconv.Atoi "99999999999999999999999" = inl strconv.ErrRange.
Proof. vm_compute. exact eq_refl. Qed.

Example Atoi_ex8 : strconv.Atoi "12a" = inl strconv.ErrSyntax.
Proof. vm_compute. exact eq_refl. Qed.

Example Atoi_ex9 : strconv.Atoi "" = inl strconv.ErrSyntax.
Proof. vm_compute. exact eq_refl. Qed.

Example Atoi_ex10 : strconv.Atoi "-" = inl strconv.ErrSyntax.
Proof. vm_compute. exact eq_refl. Qed.

Example Atoi_ex11 : strconv.Atoi "18446744073709551616" = inl strconv.ErrRange.
Proof. vm_compute. exact eq_refl. Qed.

Example Atoi_ex12 : strconv.Atoi "0007" = inr 7.
Proof. vm_compute. exact eq_refl. Qed.

Example Itoa_ex1 : strconv.Itoa 200 = "200".
Proof. vm_compute. exact eq_refl. Qed.

Example Itoa_ex2 : strconv.Itoa 0 = "0".
Proof. vm_compute. exact eq_refl. Qed.

Example Itoa_ex3 : strconv.Itoa (-17) = "-17".
Proof. vm_compute. exact eq_refl. Qed.

(** The parser run on the bytes of a request: method, URI, two of the
    headers and the body. *)
Example NewRequest_ex1 :
  (r ← NewRequest (fresh_conn ("POST /x HTTP/1.1" ++ CRLF ++
                               "Host:  a:b " ++ CRLF ++
                               "no colon here" ++ CRLF ++
                               "Content-Length: 5" ++ CRLF ++ CRLF ++
                               "hello world"));
   Ok (Method r, URI r, Headers r !! ("Host" : gostring),
       Headers r !! ("Content-Length" : gostring),
       Headers r !! ("no colon here" : gostring), Body r))
  = Ok ("POST" : gostring, "/x" : gostring, Some ("a:b" : gostring),
        Some ("5" : gostring), None, "hello" : gostring).
Proof. vm_compute. exact eq_refl. Qed.

(** A header line cut short by the end of the stream is dropped. *)
Example NewRequest_ex2 :
  (r ← NewRequest (fresh_conn ("GET / HTTP/1.1" ++ CRLF ++ "Host: x"));
   Ok (Method r, URI r, Headers r !! ("Host" : gostring), Body r))
  = Ok ("GET" : gostring, "/" : gostring, None, [] : gostring).
Proof. vm_compute. exact eq_refl. Qed.

(** A line feed alone does not end the headers. *)
Example NewRequest_ex3 :
  (r ← NewRequest (fresh_conn ("GET / HTTP/1.1" ++ [LF] ++ [LF] ++
                               "Host: x" ++ CRLF ++ CRLF));
   Ok (Method r, URI r, Headers r !! ("Host" : gostring), Body r))
  = Ok ("GET" : gostring, "/" : gostring, Some ("x" : gostring), [] : gostring).
Proof. vm_compute. exact eq_refl. Qed.

Example NewRequest_ex4 :
  NewRequest (fresh_conn ("POST / HTTP/1.1" ++ CRLF ++
                          "Content-Length: ten" ++ CRLF ++ CRLF))
  = Err (InvalidContentLength strconv.ErrSyntax).
Proof. vm_compute. exact eq_refl. Qed.

(** [GET /about] with the page on file: the response is written and the
    connection closed once. *)
Example handleAccept_ex1 :
  let env := mkEnv (λ path, if bool_decide (path = "static/about.html")
                            then Some ("<p>about</p>" : gostring) else None)
                   (λ _, false) (λ _ _, None) (λ _, None) in
  (λ '(conn, log), (written conn, closes conn, log)) <$>
    handleAccept env (fresh_conn ("GET /about HTTP/1.1" ++ CRLF ++ CRLF)) []
  = Ok ("HTTP/1.1 200 OK" ++ CRLF ++ "Content-Type: text/html" ++ CRLF ++
        "Content-Length: 12" ++ CRLF ++ CRLF ++ "<p>about</p>", 1%nat, []).
Proof. vm_compute. exact eq_refl. Qed.

(** * Properties *)

(** Side conditions on literal strings. *)
Ltac literal :=
  repeat match goal with
  | |- _ ∧ _ => split
  | |- Forall _ _ => constructor
  | |- field_name _ => unfold field_name
  | |- field_value _ => unfold field_value
  | |- visible _ => by (unfold visible; split; vm_compute)
  | |- _ ∉ _ => compute_done
  | |- _ ≠ _ => discriminate
  | |- True => exact I
  | _ => progress cbn [fst snd rev app list_ascii_of_string]
  end.

(** ** The [strings] functions *)

Section strings_facts.
Import strings.

Lemma IndexByte_None (s : gostring) (c : ascii) :
  IndexByte s c = None ↔ c ∉ s.
Proof.
  induction s as [|x s IH]; simpl.
  - split; [intros _; apply not_elem_of_nil | done].
  - case_bool_decide as Hx.
    + subst x. split; [done | intros []; left].
    + rewrite not_elem_of_cons, <- IH.
      destruct (IndexByte s c); simpl; split; try done.
      by intros [_ ?].
Qed.

Lemma IndexByte_app (l r : gostring) (c : ascii) :
  c ∉ l → IndexByte (l ++ c :: r) c = Some (length l).
Proof.
  induction l as [|x l IH]; simpl; intros Hc.
  - by rewrite bool_decide_eq_true_2.
  - apply not_elem_of_cons in Hc as [Hx Hl].
    rewrite bool_decide_eq_false_2 by done. by rewrite IH.
Qed.

Lemma IndexByte_lt (s : gostring) (c : ascii) (i : nat) :
  IndexByte s c = Some i → (i < length s)%nat.
Proof.
  revert i; induction s as [|x s IH]; intros i Hi; simplify_eq/=.
  case_bool_decide; simplify_eq/=; [lia|].
  destruct (IndexByte s c); simplify_eq/=. specialize (IH _ eq_refl). lia.
Qed.

Lemma Count_notin (s : gostring) (c : ascii) : c ∉ s → Count s c = 0%nat.
Proof.
  induction s as [|x s IH]; simpl; [done|]. intros [Hx Hs]%not_elem_of_cons.
  rewrite bool_decide_eq_false_2 by done. auto.
Qed.

Lemma Count_app (l r : gostring) (c : ascii) :
  Count (l ++ r) c = (Count l c + Count r c)%nat.
Proof.
  induction l as [|x l IH]; simpl; [done|]. case_bool_decide; lia.
Qed.

Lemma TrimSuffix_app (s suffix : gostring) :
  TrimSuffix (s ++ suffix) suffix = s.
Proof.
  unfold TrimSuffix, HasSuffix. rewrite length_app.
  replace (length s + length suffix - length suffix)%nat with (length s) by lia.
  rewrite drop_app_length, take_app_length.
  rewrite !bool_decide_eq_true_2; [done..|lia].
Qed.

(** Without the suffix the string is returned as it is. *)
Lemma TrimSuffix_no_suffix (s suffix : gostring) :
  ¬ (∃ p, s = p ++ suffix) → TrimSuffix s suffix = s.
Proof.
  intros Hno. unfold TrimSuffix, HasSuffix.
  case_bool_decide as Hlen; simpl; [|done].
  case_bool_decide as Hd; [|done]. exfalso. apply Hno.
  exists (take (length s - length suffix) s).
  transitivity (take (length s - length suffix) s
                ++ drop (length s - length suffix) s);
    [by rewrite take_drop | by f_equal].
Qed.

Lemma genSplit_cut (l r : gostring) (sep : ascii) (cuts : nat) :
  sep ∉ l →
  genSplit (l ++ sep :: r) sep (S cuts) = l :: genSplit r sep cuts.
Proof.
  intros Hl. simpl. rewrite IndexByte_app by done.
  rewrite take_app_length.
  replace (S (length l)) with (length (l ++ [sep])) by (rewrite length_app; simpl; lia).
  by rewrite (cons_middle sep l r), app_assoc, drop_app_length.
Qed.

Lemma genSplit_whole (s : gostring) (sep : ascii) (cuts : nat) :
  sep ∉ s → genSplit s sep cuts = [s].
Proof.
  intros Hs. destruct cuts; simpl; [done|].
  by apply IndexByte_None in Hs as ->.
Qed.

Lemma Split_cut (l r : gostring) (sep : ascii) :
  sep ∉ l → Split (l ++ sep :: r) sep = l :: Split r sep.
Proof.
  intros Hl. unfold Split. rewrite Count_app, Count_notin by done. simpl.
  rewrite bool_decide_eq_true_2 by done. by apply genSplit_cut.
Qed.

Lemma Split_whole (s : gostring) (sep : ascii) : sep ∉ s → Split s sep = [s].
Proof. intros Hs. by apply genSplit_whole. Qed.

(** [SplitN(s, sep, 2)] cuts at the first separator only. *)
Lemma SplitN2_cut (l r : gostring) (sep : ascii) :
  sep ∉ l → SplitN (l ++ sep :: r) sep 2 = [l; r].
Proof.
  intros Hl. unfold SplitN.
  change (2 =? 0) with false. change (2 <? 0) with false. cbv iota.
  rewrite length_app. cbn [length].
  replace (Nat.min (Z.to_nat 2) (S (length l + S (length r))) - 1)%nat
    with 1%nat by lia.
  by rewrite genSplit_cut.
Qed.

Lemma SplitN2_whole (s : gostring) (sep : ascii) :
  sep ∉ s → SplitN s sep 2 = [s].
Proof.
  intros Hs. unfold SplitN.
  change (2 =? 0) with false. change (2 <? 0) with false. cbv iota.
  by apply genSplit_whole.
Qed.

End strings_facts.

Section trim_facts.
Import strings.

Lemma visible_not_space (c : ascii) : visible c → asciiSpace c = false.
Proof.
  intros Hv. apply bool_decide_eq_false_2. intros Hin.
  repeat (apply elem_of_cons in Hin as [->|Hin];
          [by (cbv in Hv; destruct Hv as [H1 H2]; first [by apply H1 | by apply H2])|]).
  by apply elem_of_nil in Hin.
Qed.

Lemma space2_high (c1 c2 : ascii) :
  space2 c1 c2 = true → 0x80 ≤ code c1 ∧ 0x80 ≤ code c2.
Proof.
  unfold space2. rewrite andb_true_iff, !bool_decide_eq_true.
  rewrite !elem_of_cons, elem_of_nil. lia.
Qed.

Lemma space3_high (c1 c2 c3 : ascii) :
  space3 c1 c2 c3 = true → 0x80 ≤ code c1 ∧ 0x80 ≤ code c2 ∧ 0x80 ≤ code c3.
Proof.
  unfold space3. rewrite !orb_true_iff, !bool_decide_eq_true.
  rewrite !elem_of_cons, elem_of_nil. lia.
Qed.

Lemma dropSpaces_stop r2 r3 (c : ascii) (s : gostring) :
  asciiSpace c = false →
  (∀ c2, r2 c c2 = false) → (∀ c2 c3, r3 c c2 c3 = false) →
  dropSpaces r2 r3 (c :: s) = c :: s.
Proof.
  intros Hc H2 H3. simpl. rewrite Hc.
  destruct s as [|c2 [|c3 s]]; [done|by rewrite H2|by rewrite H2, H3].
Qed.

Lemma TrimLeftSpace_visible (c : ascii) (s : gostring) :
  visible c → TrimLeftSpace (c :: s) = c :: s.
Proof.
  intros Hv. apply dropSpaces_stop; [by apply visible_not_space|..].
  - intros c2. apply not_true_is_false. intros []%space2_high.
    unfold visible in Hv. lia.
  - intros c2 c3. apply not_true_is_false. intros []%space3_high.
    unfold visible in Hv. lia.
Qed.

Lemma TrimRightSpace_visible (s : gostring) (c : ascii) :
  visible c → TrimRightSpace (s ++ [c]) = s ++ [c].
Proof.
  intros Hv. unfold TrimRightSpace. rewrite rev_unit.
  rewrite dropSpaces_stop.
  - change (c :: rev s) with ([c] ++ rev s).
    by rewrite rev_app_distr, rev_involutive.
  - by apply visible_not_space.
  - intros c2. apply not_true_is_false. intros []%space2_high.
    unfold visible in Hv. lia.
  - intros c2 c3. apply not_true_is_false. intros (?&?&?)%space3_high.
    unfold visible in Hv. lia.
Qed.

(** A string with a visible character at either end is left as it is. *)
Lemma TrimSpace_outer_visible (s : gostring) :
  match s with [] => True | c :: _ => visible c end →
  match rev s with [] => True | c :: _ => visible c end →
  TrimSpace s = s.
Proof.
  intros Hhd Hlast. unfold TrimSpace.
  destruct s as [|c s]; [done|].
  rewrite TrimLeftSpace_visible by done.
  destruct (rev (c :: s)) as [|d t] eqn:Hrev.
  { apply (f_equal (@rev ascii)) in Hrev. rewrite rev_involutive in Hrev. done. }
  apply (f_equal (@rev ascii)) in Hrev. rewrite rev_involutive in Hrev. simpl in Hrev.
  rewrite Hrev. by apply TrimRightSpace_visible.
Qed.

Lemma TrimSpace_leading_space (s : gostring) :
  match s with [] => True | c :: _ => visible c end →
  match rev s with [] => True | c :: _ => visible c end →
  TrimSpace (" " ++ s) = s.
Proof.
  intros Hhd Hlast. rewrite <- (TrimSpace_outer_visible s) at 2 by done.
  done.
Qed.

Lemma Forall_visible_outer (s : gostring) :
  Forall visible s →
  match s with [] => True | c :: _ => visible c end ∧
  match rev s with [] => True | c :: _ => visible c end.
Proof.
  intros Hs. split.
  - by destruct Hs.
  - apply Forall_rev in Hs. by destruct Hs.
Qed.

End trim_facts.

Section trim_shape.
Import strings.
Context (r2 : ascii → ascii → bool) (r3 : ascii → ascii → ascii → bool).

Lemma blank_app (a b : gostring) :
  blank r2 r3 a → blank r2 r3 b → blank r2 r3 (a ++ b).
Proof.
  induction 1 as [|w s Hw Hs IH]; intros Hb; [done|].
  rewrite <- app_assoc. constructor; auto.
Qed.

(** One turn of [dropSpaces]: it stops where it is, in front of bytes
    that encode no white space, or it goes on behind a code point. *)
Lemma dropSpaces_cases (s : gostring) :
  (dropSpaces r2 r3 s = s ∧ ∀ w t, rune r2 r3 w → s ≠ w ++ t)
  ∨ (∃ w s', s = w ++ s' ∧ rune r2 r3 w
             ∧ dropSpaces r2 r3 s = dropSpaces r2 r3 s').
Proof.
  destruct s as [|c1 s1].
  { left. split; [done|]. intros w t Hw. by destruct Hw. }
  simpl. destruct (asciiSpace c1) eqn:H1.
  { right. exists [c1], s1. split_and!; [done|by constructor|done]. }
  destruct s1 as [|c2 s2].
  { left. split; [done|]. intros w t Hw Hs. destruct Hw; simplify_eq/=; congruence. }
  destruct (r2 c1 c2) eqn:H2.
  { right. exists [c1; c2], s2. split_and!; [done|by constructor|done]. }
  destruct s2 as [|c3 s3].
  { left. split; [done|]. intros w t Hw Hs. destruct Hw; simplify_eq/=; congruence. }
  destruct (r3 c1 c2 c3) eqn:H3.
  { right. exists [c1; c2; c3], s3. split_and!; [done|by constructor|done]. }
  left. split; [done|]. intros w t Hw Hs. destruct Hw; simplify_eq/=; congruence.
Qed.

Lemma rune_nonempty (w : gostring) : rune r2 r3 w → w ≠ [].
Proof. by destruct 1. Qed.

Lemma dropSpaces_shape (s : gostring) :
  ∃ w, s = w ++ dropSpaces r2 r3 s ∧ blank r2 r3 w
       ∧ ∀ x t, rune r2 r3 x → dropSpaces r2 r3 s ≠ x ++ t.
Proof.
  remember (length s) as n eqn:Hn. revert s Hn.
  induction n as [n IH] using lt_wf_ind. intros s ->.
  destruct (dropSpaces_cases s) as [[-> Hhd]|(w & s' & -> & Hw & ->)].
  - exists []. split_and!; [done|constructor|done].
  - destruct (IH (length s')) with (s := s') as (w' & Hs' & Hw' & Hhd); [|done|].
    { rewrite length_app. apply rune_nonempty in Hw. destruct w; [done|simpl; lia]. }
    exists (w ++ w'). split_and!; [|by constructor|done].
    rewrite <- app_assoc. by rewrite <- Hs'.
Qed.

End trim_shape.

Section trim_space.
Import strings.

Lemma rune_rev (w : gostring) :
  rune (λ c2 c1, space2 c1 c2) (λ c3 c2 c1, space3 c1 c2 c3) w ↔
  space_rune (rev w).
Proof.
  split.
  - destruct 1; simpl; by constructor.
  - intros Hw. rewrite <- (rev_involutive w).
    destruct Hw; simpl; by constructor.
Qed.

Lemma blank_rev (s : gostring) :
  blank (λ c2 c1, space2 c1 c2) (λ c3 c2 c1, space3 c1 c2 c3) s →
  white_space (rev s).
Proof.
  induction 1 as [|w s Hw Hs IH]; [constructor|].
  rewrite rev_app_distr. apply blank_app; [done|].
  rewrite <- (app_nil_r (rev w)). constructor; [by apply rune_rev|constructor].
Qed.

(** [TrimSpace s] is [s] without a run of white space at its front and
    one at its back, and it neither starts nor ends with white space. *)
Lemma TrimSpace_shape (s : gostring) :
  ∃ p q, s = p ++ TrimSpace s ++ q ∧ white_space p ∧ white_space q
         ∧ (∀ w t, space_rune w → TrimSpace s ≠ w ++ t)
         ∧ (∀ w t, space_rune w → TrimSpace s ≠ t ++ w).
Proof.
  unfold TrimSpace, TrimRightSpace, TrimLeftSpace.
  destruct (dropSpaces_shape space2 space3 s) as (p & Hp & Hbp & Hhd).
  set (t := dropSpaces space2 space3 s) in *.
  destruct (dropSpaces_shape (λ c2 c1, space2 c1 c2)
              (λ c3 c2 c1, space3 c1 c2 c3) (rev t)) as (q & Hq & Hbq & Hlast).
  set (u := dropSpaces _ _ (rev t)) in *.
  assert (t = rev u ++ rev q) as Ht.
  { rewrite <- rev_app_distr, <- Hq. by rewrite rev_involutive. }
  exists p, (rev q). split_and!.
  - by rewrite <- Ht.
  - done.
  - by apply blank_rev.
  - intros w x Hw Hu. apply (Hhd w (x ++ rev q) Hw).
    by rewrite Ht, Hu, <- app_assoc.
  - intros w x Hw Hu. apply (Hlast (rev w) (rev x)).
    + apply rune_rev. by rewrite rev_involutive.
    + rewrite <- rev_app_distr, <- Hu. by rewrite rev_involutive.
Qed.

End trim_space.

(** ** Reading lines *)

Lemma ReadString_line (l rest : gostring) (e : io_error) (delim : ascii) :
  delim ∉ l →
  ReadString (mkReader (l ++ delim :: rest) e) delim
  = (l ++ [delim], None, mkReader rest e).
Proof.
  intros Hl. unfold ReadString. simpl. rewrite IndexByte_app by done.
  replace (S (length l)) with (length (l ++ [delim]))
    by (rewrite length_app; simpl; lia).
  rewrite (cons_middle delim l rest), app_assoc.
  by rewrite take_app_length, drop_app_length.
Qed.

Lemma ReadString_end (s : gostring) (e : io_error) (delim : ascii) :
  delim ∉ s →
  ReadString (mkReader s e) delim = (s, Some e, mkReader [] e).
Proof.
  intros Hs. unfold ReadString. simpl.
  by apply IndexByte_None in Hs as ->.
Qed.

(** One turn of the header loop. *)
Lemma readHeaders_step (reader : Reader) (headers : gmap gostring gostring) :
  readHeaders reader headers =
  match ReadString reader LF with
  | (_, Some EOF, reader') => Ok (headers, reader')
  | (_, Some err, _) => Err (HeaderReadError err)
  | (headerLine, None, reader') =>
      let headerLine := strings.TrimSuffix headerLine CRLF in
      if bool_decide (headerLine = []) then Ok (headers, reader') else
      match strings.SplitN headerLine ":" 2 with
      | [name; value] =>
          readHeaders reader'
            (<[strings.TrimSpace name := strings.TrimSpace value]> headers)
      | _ => readHeaders reader' headers
      end
  end.
Proof.
  funelim (readHeaders reader headers); by rewrite e.
Qed.

Lemma readHeaders_end_marker (rest : gostring) (e : io_error)
    (headers : gmap gostring gostring) :
  readHeaders (mkReader (CRLF ++ rest) e) headers
  = Ok (headers, mkReader rest e).
Proof. by rewrite readHeaders_step. Qed.

Lemma readHeaders_line (l rest : gostring) (e : io_error)
    (headers : gmap gostring gostring) :
  l ≠ [] → LF ∉ l →
  readHeaders (mkReader (l ++ CRLF ++ rest) e) headers =
  match strings.SplitN l ":" 2 with
  | [name; value] =>
      readHeaders (mkReader rest e)
        (<[strings.TrimSpace name := strings.TrimSpace value]> headers)
  | _ => readHeaders (mkReader rest e) headers
  end.
Proof.
  intros Hne Hl. rewrite readHeaders_step.
  change (l ++ CRLF ++ rest) with (l ++ [CR] ++ LF :: rest).
  rewrite app_assoc, ReadString_line.
  2:{ rewrite elem_of_app, list_elem_of_singleton. intros [?|?]; done. }
  rewrite <- app_assoc. change ([CR] ++ [LF]) with CRLF.
  cbv zeta. rewrite TrimSuffix_app.
  by rewrite bool_decide_eq_false_2.
Qed.

Lemma readHeaders_field (name value rest : gostring) (e : io_error)
    (headers : gmap gostring gostring) :
  LF ∉ name → LF ∉ value → ":"%char ∉ name →
  readHeaders (mkReader (name ++ ":"%char :: value ++ CRLF ++ rest) e) headers
  = readHeaders (mkReader rest e)
      (<[strings.TrimSpace name := strings.TrimSpace value]> headers).
Proof.
  intros Hn Hv Hc.
  replace (name ++ ":"%char :: value ++ CRLF ++ rest)
    with ((name ++ ":"%char :: value) ++ CRLF ++ rest)
    by (by rewrite <- app_assoc).
  rewrite readHeaders_line.
  - by rewrite SplitN2_cut.
  - by destruct name.
  - rewrite elem_of_app, elem_of_cons. intros [?|[?|?]]; done.
Qed.

Lemma readHeaders_skip (l rest : gostring) (e : io_error)
    (headers : gmap gostring gostring) :
  l ≠ [] → LF ∉ l → ":"%char ∉ l →
  readHeaders (mkReader (l ++ CRLF ++ rest) e) headers
  = readHeaders (mkReader rest e) headers.
Proof.
  intros Hne Hl Hc. rewrite readHeaders_line by done.
  by rewrite SplitN2_whole.
Qed.

Lemma readHeaders_eof (s : gostring) (headers : gmap gostring gostring) :
  LF ∉ s →
  readHeaders (mkReader s EOF) headers = Ok (headers, mkReader [] EOF).
Proof. intros Hs. by rewrite readHeaders_step, ReadString_end. Qed.

Lemma readHeaders_broken (s : gostring) (headers : gmap gostring gostring) :
  LF ∉ s →
  readHeaders (mkReader s ErrNet) headers = Err (HeaderReadError ErrNet).
Proof. intros Hs. by rewrite readHeaders_step, ReadString_end. Qed.

(** ** Decimal numbers *)

Lemma digits_value_ge (s : gostring) (acc n : Z) :
  0 ≤ acc → digits_value s acc = Some n → acc ≤ n.
Proof.
  revert acc. induction s as [|c s IH]; intros acc Hacc Hv; simplify_eq/=; [lia|].
  destruct (strconv.isDigit c) eqn:Hc; [|done].
  unfold strconv.isDigit in Hc. apply andb_true_iff in Hc as [?%Z.leb_le ?%Z.leb_le].
  apply IH in Hv; lia.
Qed.

Lemma parseDigits_value (s : gostring) (acc n : Z) :
  0 ≤ acc → digits_value s acc = Some n → n < 2 ^ 64 →
  strconv.parseDigits s acc = inr n.
Proof.
  revert acc. induction s as [|c s IH]; intros acc Hacc Hv Hn; simplify_eq/=; [done|].
  destruct (strconv.isDigit c) eqn:Hc; [|done]. simpl.
  pose proof Hc as Hc'.
  unfold strconv.isDigit in Hc'.
  apply andb_true_iff in Hc' as [?%Z.leb_le ?%Z.leb_le].
  change (code "0") with 48 in *. change (code "9") with 57 in *.
  assert (acc * 10 + (code c - 48) ≤ n) by (apply (digits_value_ge s); [lia|done]).
  unfold strconv.maxUint64.
  change ((2 ^ 64 - 1) / 10 + 1) with 1844674407370955162.
  change (2 ^ 64) with 18446744073709551616 in *.
  destruct (acc >=? 1844674407370955162) eqn:Hcut; [lia|].
  rewrite (Z.mod_small (acc * 10)) by lia.
  rewrite (Z.mod_small (acc * 10 + _)) by lia.
  destruct (_ <? _) eqn:?; [lia|]. simpl.
  destruct (_ >? _) eqn:?; [lia|].
  apply IH; [lia|done|lia].
Qed.

(** On a string of decimal digits [Atoi] returns the number it denotes,
    as long as that number fits an [int]. *)
Lemma Atoi_decimal (s : gostring) (n : Z) :
  decimal_value s = Some n → n < 2 ^ 63 → strconv.Atoi s = inr n.
Proof.
  intros Hv Hn. destruct s as [|c s]; [done|].
  unfold strconv.Atoi, strconv.ParseInt.
  pose proof Hv as Hc. simpl in Hc.
  destruct (strconv.isDigit c) eqn:Hd; [|done]. clear Hc.
  assert (c ≠ "+"%char ∧ c ≠ "-"%char) as [Hplus Hminus].
  { split; intros ->; done. }
  rewrite !bool_decide_eq_false_2 by done. cbv zeta. simpl orb. cbv iota.
  unfold strconv.ParseUint.
  rewrite (parseDigits_value (c :: s) 0 n); [|lia|done|lia].
  simpl negb. simpl andb.
  destruct (n >=? 2 ^ 63) eqn:?; [lia|done].
Qed.

(** ** Decimal output *)

Lemma digits_value_of_uint_acc (d : Decimal.uint) (acc : positive) :
  digits_value (list_ascii_of_string (NilEmpty.string_of_uint d)) (Z.pos acc)
  = Some (Z.pos (Pos.of_uint_acc d acc)).
Proof.
  revert acc. induction d as [|d IH|d IH|d IH|d IH|d IH|d IH|d IH|d IH|d IH|d IH];
    intros acc; [done|..]; cbn -[Z.mul Z.add Pos.mul Pos.add];
    change (code "0") with 48.
  all: match goal with
       | |- context [strconv.isDigit ?c] =>
           change (strconv.isDigit c) with true; cbv iota
       end.
  all: try match goal with
       | |- context [code ?c] =>
           let v := eval vm_compute in (code c) in change (code c) with v
       end.
  all: match goal with
       | |- digits_value _ ?z = Some (Z.pos (Pos.of_uint_acc _ ?p)) =>
           replace z with (Z.pos p) by lia
       end; apply IH.
Qed.

Lemma digits_value_of_uint (d : Decimal.uint) :
  digits_value (list_ascii_of_string (NilEmpty.string_of_uint d)) 0
  = Some (Z.of_N (Pos.of_uint d)).
Proof.
  induction d as [|d IH|d IH|d IH|d IH|d IH|d IH|d IH|d IH|d IH|d IH];
    [done|exact IH|..]; cbn -[Z.mul Z.add Pos.mul Pos.add];
    apply (digits_value_of_uint_acc d).
Qed.

(** The decimal digits [%d] prints for a number that is not negative
    denote that number. *)
Lemma Itoa_decimal_value (i : Z) :
  0 ≤ i → decimal_value (strconv.Itoa i) = Some i.
Proof.
  intros Hi. destruct i as [|p|p]; [done| |lia].
  unfold strconv.Itoa. cbn [Z.to_int NilZero.string_of_int].
  unfold NilZero.string_of_uint.
  pose proof (Unsigned.to_uint_nonnil p) as Hnil.
  pose proof (digits_value_of_uint (Pos.to_uint p)) as Hv.
  rewrite Unsigned.of_to in Hv.
  destruct (Pos.to_uint p) eqn:Hp; [done|..]; exact Hv.
Qed.

Lemma Atoi_Itoa (i : Z) : 0 ≤ i < 2 ^ 63 → strconv.Atoi (strconv.Itoa i) = inr i.
Proof. intros Hi. apply Atoi_decimal; [apply Itoa_decimal_value|]; lia. Qed.

(** ** Status codes *)

Lemma StatusText_unregistered (status : Z) :
  status ∉ registered_codes → StatusText status = [].
Proof.
  intros H. destruct status as [|p|p]; [done| |done].
  do 10 (try (destruct p as [p|p|]; try done)).
  all: exfalso; apply H; compute_done.
Qed.

Lemma StatusText_registered (status : Z) :
  status ∈ registered_codes → StatusText status ≠ [].
Proof.
  unfold registered_codes. rewrite !elem_of_cons, elem_of_nil.
  intros H. repeat (destruct H as [->|H]; [done|]). done.
Qed.

(** ** The header mapping *)

Lemma last_header_snoc (k : gostring) (hs : list (gostring * gostring))
    (h : gostring * gostring) :
  last_header k (hs ++ [h]) = if decide (h.1 = k) then Some h.2 else last_header k hs.
Proof.
  unfold last_header. rewrite filter_app, filter_cons, filter_nil.
  case_decide; [|by rewrite app_nil_r].
  by rewrite last_snoc.
Qed.

Lemma foldl_store_header_lookup (hs : list (gostring * gostring))
    (m : gmap gostring gostring) (k : gostring) :
  foldl store_header m hs !! k
  = match last_header k hs with Some v => Some v | None => m !! k end.
Proof.
  induction hs as [|h hs IH] using rev_ind; [done|].
  rewrite foldl_app, last_header_snoc. simpl. unfold store_header at 1.
  rewrite lookup_insert. case_decide; [done|]. apply IH.
Qed.

Lemma visible_not_LF (s : gostring) : Forall visible s → LF ∉ s.
Proof.
  intros Hs Hin. rewrite Forall_forall in Hs. apply Hs in Hin.
  cbv in Hin. destruct Hin as [H1 _]. by apply H1.
Qed.

Lemma visible_not_space_char (s : gostring) : Forall visible s → " "%char ∉ s.
Proof.
  intros Hs Hin. rewrite Forall_forall in Hs. apply Hs in Hin.
  cbv in Hin. destruct Hin as [H1 _]. by apply H1.
Qed.

Lemma header_lines_cons_app (name value : gostring)
    (hs : list (gostring * gostring)) (tail : gostring) :
  header_lines ((name, value) :: hs) ++ tail
  = name ++ ":"%char :: (" "%char :: value) ++ CRLF ++ header_lines hs ++ tail.
Proof.
  unfold header_lines, header_line. rewrite fmap_cons. cbn [concat fst snd].
  by rewrite <- !app_assoc.
Qed.

Lemma readHeaders_header_lines (hs : list (gostring * gostring))
    (rest : gostring) (e : io_error) (headers : gmap gostring gostring) :
  Forall (λ h, field_name h.1 ∧ field_value h.2) hs →
  readHeaders (mkReader (header_lines hs ++ CRLF ++ rest) e) headers
  = Ok (foldl store_header headers hs, mkReader rest e).
Proof.
  intros Hhs. revert headers.
  induction Hhs as [|[name value] hs [Hname (Hlf & Hhd & Hlast)] _ IH];
    intros headers.
  { apply readHeaders_end_marker. }
  cbn [fst snd] in *.
  assert (Forall visible name) as Hvis
    by (eapply Forall_impl; [exact Hname | by intros ? []]).
  rewrite header_lines_cons_app, readHeaders_field.
  - rewrite IH. do 2 f_equal. cbn [foldl]. unfold store_header at 2.
    cbn [fst snd].
    rewrite (TrimSpace_outer_visible name)
      by (by apply Forall_visible_outer).
    change (" "%char :: value) with (" " ++ value).
    by rewrite TrimSpace_leading_space.
  - by apply visible_not_LF.
  - rewrite not_elem_of_cons. done.
  - intros Hin. unfold field_name in Hname. rewrite Forall_forall in Hname.
    by apply Hname in Hin as [_ ?].
Qed.

(** ** The request line *)

Lemma request_line_tokens (method uri : gostring) :
  method ≠ [] → Forall visible method → Forall visible uri →
  strings.Split (strings.TrimSpace (method ++ " " ++ uri ++ " HTTP/1.1")) " "
  = [method; uri; "HTTP/1.1" : gostring].
Proof.
  intros Hne Hm Hu.
  rewrite TrimSpace_outer_visible.
  - change (method ++ " " ++ uri ++ " HTTP/1.1")
      with (method ++ " "%char :: uri ++ " "%char :: "HTTP/1.1").
    rewrite !Split_cut by (by apply visible_not_space_char).
    by rewrite Split_whole by compute_done.
  - destruct Hm; [done|]. done.
  - rewrite !rev_app_distr. simpl. by cbv.
Qed.

Lemma ReadFull_exact (s : gostring) (e : io_error) :
  ReadFull (mkReader s e) (length s) = (s, None, mkReader [] e).
Proof.
  unfold ReadFull. simpl. rewrite bool_decide_eq_true_2 by done.
  by rewrite firstn_all, drop_all.
Qed.


Lemma make_bytes_fits (n : nat) :
  Z.of_nat n ≤ maxAlloc → make_bytes (Z.of_nat n) = Ok n.
Proof.
  intros Hn. unfold make_bytes.
  destruct (_ <? 0) eqn:?; [lia|]. destruct (_ >? _) eqn:?; [lia|].
  simpl. by rewrite Nat2Z.id.
Qed.

Lemma readHead_well_formed (method uri : gostring)
    (hs : list (gostring * gostring)) (rest : gostring)
    (e : io_error) (out : gostring) (n : nat) :
  method ≠ [] → Forall visible method → Forall visible uri →
  Forall (λ h, field_name h.1 ∧ field_value h.2) hs →
  readHead (mkConn (request_text method uri hs rest) e out n)
  = Ok (method, uri, foldl store_header ∅ hs, mkReader rest e).
Proof.
  intros Hne Hm Hu Hhs.
  unfold readHead, NewReader. cbn [incoming hangup].
  replace (request_text method uri hs rest)
    with ((method ++ " " ++ uri ++ " HTTP/1.1" ++ [CR]) ++
          LF :: header_lines hs ++ CRLF ++ rest)
    by (unfold request_text; by rewrite <- !app_assoc).
  rewrite ReadString_line.
  2:{ rewrite !not_elem_of_app. split_and!; try (by apply visible_not_LF).
      all: compute_done. }
  replace ((method ++ " " ++ uri ++ " HTTP/1.1" ++ [CR]) ++ [LF])
    with ((method ++ " " ++ uri ++ " HTTP/1.1") ++ CRLF)
    by (by rewrite <- !app_assoc).
  rewrite TrimSuffix_app, request_line_tokens by done.
  simpl index. cbn [mbind outcome_bind].
  by rewrite readHeaders_header_lines.
Qed.

(** C1. A well-formed request -- request line ["<METHOD> <URI> HTTP/1.1"],
    header lines ["Name: value"], an empty line, and a body of as many
    bytes as the last Content-Length header says (no body without such a
    header) -- is parsed into exactly its method, its URI, the mapping of
    its headers (the last occurrence of a name wins, names are compared as
    they are written) and its body. The body is one that fits a buffer of
    the runtime. *)
Theorem NewRequest_well_formed (method uri body : gostring)
    (hs : list (gostring * gostring)) (e : io_error) (out : gostring) (n : nat) :
  method ≠ [] → Forall visible method → Forall visible uri →
  Forall (λ h, field_name h.1 ∧ field_value h.2) hs →
  match last_header "Content-Length" hs with
  | Some v => decimal_value v = Some (len body)
  | None => body = []
  end →
  len body ≤ maxAlloc →
  ∃ req, NewRequest (mkConn (request_text method uri hs body) e out n) = Ok req
         ∧ Method req = method ∧ URI req = uri
         ∧ (∀ k, Headers req !! k = last_header k hs)
         ∧ Body req = body.
Proof.
  intros Hne Hm Hu Hhs Hcl Hfit.
  exists (mkReq method uri (foldl store_header ∅ hs) body).
  split; [|repeat split].
  2:{ intros k. simpl. rewrite foldl_store_header_lookup.
      by destruct (last_header k hs). }
  unfold NewRequest. rewrite readHead_well_formed by done.
  cbn [mbind outcome_bind]. unfold readBody.
  rewrite foldl_store_header_lookup, lookup_empty.
  destruct (last_header _ hs) as [v|].
  - rewrite (Atoi_decimal v (len body)); [|done|unfold maxAlloc in Hfit; lia].
    unfold len. rewrite make_bytes_fits by done. cbn [mbind outcome_bind].
    by rewrite ReadFull_exact.
  - by subst body.
Qed.

Lemma NewRequest_well_formed_witness :
  ∃ req,
    NewRequest (fresh_conn (request_text "POST" "/"
      [("Host" : gostring, "example.org" : gostring);
       ("Content-Length" : gostring, "3" : gostring);
       ("Content-Length" : gostring, "5" : gostring)] "hello")) = Ok req
    ∧ Method req = "POST" ∧ URI req = "/"
    ∧ (∀ k, Headers req !! k =
            last_header k [("Host" : gostring, "example.org" : gostring);
                           ("Content-Length" : gostring, "3" : gostring);
                           ("Content-Length" : gostring, "5" : gostring)])
    ∧ Body req = "hello".
Proof.
  apply (NewRequest_well_formed "POST" "/" "hello"
           [("Host" : gostring, "example.org" : gostring);
            ("Content-Length" : gostring, "3" : gostring);
            ("Content-Length" : gostring, "5" : gostring)] EOF [] 0).
  - discriminate.
  - literal.
  - literal.
  - literal.
  - vm_compute. exact eq_refl.
  - vm_compute. discriminate.
Defined.

(** ** The header loop *)

(** C9. One header line [l], ended by CRLF, in front of the rest of the
    stream: an empty line ends the headers; a line with a colon is cut at
    its first colon and stored, name and value trimmed by [TrimSpace]; a
    line without a colon is passed over; and a stream that ends during the
    headers ends them as an empty line does. What [TrimSpace] returns is
    its argument without the white space at its two ends. *)
Theorem readHeaders_line_by_line (l rest : gostring) (e : io_error)
    (headers : gmap gostring gostring) :
  LF ∉ l →
  readHeaders (mkReader (CRLF ++ rest) e) headers
    = Ok (headers, mkReader rest e)
  ∧ (∀ name value, l = name ++ ":"%char :: value → ":"%char ∉ name →
       readHeaders (mkReader (l ++ CRLF ++ rest) e) headers
       = readHeaders (mkReader rest e)
           (<[strings.TrimSpace name := strings.TrimSpace value]> headers))
  ∧ (l ≠ [] → ":"%char ∉ l →
       readHeaders (mkReader (l ++ CRLF ++ rest) e) headers
       = readHeaders (mkReader rest e) headers)
  ∧ readHeaders (mkReader l EOF) headers = Ok (headers, mkReader [] EOF)
  ∧ (∀ s, ∃ p q, s = p ++ strings.TrimSpace s ++ q
                 ∧ white_space p ∧ white_space q
                 ∧ (∀ w t, space_rune w → strings.TrimSpace s ≠ w ++ t)
                 ∧ (∀ w t, space_rune w → strings.TrimSpace s ≠ t ++ w)).
Proof.
  intros Hl. split_and!.
  - apply readHeaders_end_marker.
  - intros name value -> Hname.
    apply not_elem_of_app in Hl as [Hn [_ Hv]%not_elem_of_cons].
    rewrite <- app_assoc. by apply readHeaders_field.
  - intros Hne Hc. by apply readHeaders_skip.
  - by apply readHeaders_eof.
  - apply TrimSpace_shape.
Qed.

Lemma readHeaders_line_by_line_witness :
  (LF ∉ ("Host : a:b " : gostring))
  ∧ readHeaders (mkReader ("Host : a:b " ++ CRLF ++ CRLF ++ "rest") EOF) ∅
    = Ok (<[("Host" : gostring) := ("a:b" : gostring)]> ∅, mkReader "rest" EOF).
Proof.
  assert (LF ∉ ("Host : a:b " : gostring)) as Hl by compute_done.
  split; [exact Hl|].
  destruct (readHeaders_line_by_line "Host : a:b " (CRLF ++ "rest") EOF ∅ Hl)
    as (_ & Hfield & _).
  rewrite (Hfield "Host " " a:b " eq_refl) by compute_done.
  apply readHeaders_end_marker.
Defined.

(** ** The body *)

(** C8 (as amended). When the request line and the headers have been read
    and no header is named Content-Length, the request is returned with
    an empty body, whatever is left in the stream. *)
Theorem NewRequest_without_Content_Length (conn : Conn) (method uri : gostring)
    (headers : gmap gostring gostring) (reader : Reader) :
  readHead conn = Ok (method, uri, headers, reader) →
  headers !! ("Content-Length" : gostring) = None →
  NewRequest conn = Ok (mkReq method uri headers []).
Proof.
  intros Hhead Hcl. unfold NewRequest. rewrite Hhead. cbn [mbind outcome_bind].
  unfold readBody. by rewrite Hcl.
Qed.

Lemma NewRequest_without_Content_Length_witness :
  NewRequest (fresh_conn (request_text "GET" "/about"
                [("content-length" : gostring, "4" : gostring)] "left over"))
  = Ok (mkReq "GET" "/about"
          (foldl store_header ∅ [("content-length" : gostring, "4" : gostring)])
          []).
Proof.
  apply (NewRequest_without_Content_Length _ _ _ _ (mkReader "left over" EOF)).
  - apply readHead_well_formed; literal.
  - rewrite foldl_store_header_lookup. vm_compute. exact eq_refl.
Defined.

(** Without the request line or the headers there is no request at all:
    the stream may end before the first line feed, break during the
    headers, or hold a request line of one word. *)
Lemma NewRequest_without_Content_Length_counterexample :
  NewRequest (fresh_conn "GET / HTTP/1.1") = Err (MalformedRequestLine EOF)
  ∧ NewRequest (mkConn ("GET / HTTP/1.1" ++ CRLF ++ "Host: x" ++ CRLF ++ "Acc")
                  ErrNet [] 0)
    = Err (HeaderReadError ErrNet)
  ∧ NewRequest (fresh_conn ("GET" ++ CRLF ++ "Host: x" ++ CRLF ++ CRLF))
    = Panic (IndexOutOfRange 1 1).
Proof. split_and!; vm_compute; exact eq_refl. Qed.




(** C4. A negative Content-Length passes [Atoi] and reaches [make]: the
    parser panics instead of returning an error. *)
Theorem NewRequest_negative_Content_Length (conn : Conn) (method uri v : gostring)
    (headers : gmap gostring gostring) (reader : Reader) (n : Z) :
  readHead conn = Ok (method, uri, headers, reader) →
  headers !! ("Content-Length" : gostring) = Some v →
  strconv.Atoi v = inr n →
  n < 0 →
  NewRequest conn = Panic MakesliceLenOutOfRange.
Proof.
  intros Hhead Hcl Hv Hn. unfold NewRequest.
  rewrite Hhead. cbn [mbind outcome_bind]. unfold readBody. rewrite Hcl, Hv.
  unfold make_bytes. by destruct (n <? 0) eqn:?; [|lia].
Qed.

Lemma NewRequest_negative_Content_Length_witness :
  NewRequest (fresh_conn (request_text "POST" "/"
                [("Content-Length" : gostring, "-5" : gostring)] ""))
  = Panic MakesliceLenOutOfRange.
Proof.
  apply (NewRequest_negative_Content_Length _ "POST" "/" "-5"
           (foldl store_header ∅ [("Content-Length" : gostring, "-5" : gostring)])
           (mkReader [] EOF) (-5)).
  - apply (readHead_well_formed "POST" "/" _ ""); literal.
  - rewrite foldl_store_header_lookup. vm_compute. exact eq_refl.
  - vm_compute. exact eq_refl.
  - lia.
Defined.

(** A value that [Atoi] refuses is reported as such. *)
Lemma NewRequest_invalid_Content_Length (conn : Conn) (method uri v : gostring)
    (headers : gmap gostring gostring) (reader : Reader) (err : strconv.NumError) :
  readHead conn = Ok (method, uri, headers, reader) →
  headers !! ("Content-Length" : gostring) = Some v →
  strconv.Atoi v = inl err →
  NewRequest conn = Err (InvalidContentLength err).
Proof.
  intros Hhead Hcl Hv. unfold NewRequest.
  rewrite Hhead. cbn [mbind outcome_bind]. unfold readBody. by rewrite Hcl, Hv.
Qed.

(** ** The request line *)

(** C5. A first line without a space, once trimmed, gives a slice of one
    element, and the index expression for the URI panics. *)
Theorem NewRequest_index_out_of_range (l rest : gostring) (e : io_error)
    (out : gostring) (n : nat) :
  LF ∉ l →
  " "%char ∉ strings.TrimSpace (strings.TrimSuffix (l ++ [LF]) CRLF) →
  NewRequest (mkConn (l ++ LF :: rest) e out n) = Panic (IndexOutOfRange 1 1).
Proof.
  intros Hl Hsp. unfold NewRequest, readHead, NewReader. cbn [incoming hangup].
  rewrite ReadString_line by done. cbv zeta. cbn [mbind outcome_bind].
  by rewrite Split_whole.
Qed.

Lemma NewRequest_index_out_of_range_witness :
  NewRequest (fresh_conn ("GET" ++ CRLF ++ "Host: x" ++ CRLF ++ CRLF))
    = Panic (IndexOutOfRange 1 1)
  ∧ NewRequest (fresh_conn (CRLF ++ CRLF)) = Panic (IndexOutOfRange 1 1).
Proof.
  split.
  - apply (NewRequest_index_out_of_range ("GET" ++ [CR])); compute_done.
  - apply (NewRequest_index_out_of_range [CR]); compute_done.
Defined.

(** ** The connection handler and the router *)

(** C6. When the parser returns an error, [handleAccept] logs it and
    returns: nothing is written, and [Close] is not called -- the
    connection is left as it was accepted. *)
Theorem handleAccept_parse_error (env : Env) (conn : Conn)
    (log : list log_entry) (err : error) :
  NewRequest conn = Err err →
  handleAccept env conn log = Ok (conn, log ++ [LogRequestError err]).
Proof. intros Herr. unfold handleAccept. by rewrite Herr. Qed.

Lemma handleAccept_parse_error_witness :
  ∃ conn', handleAccept bare_env (fresh_conn "GET / HTTP/1.1") []
           = Ok (conn', [LogRequestError (MalformedRequestLine EOF)])
         ∧ written conn' = [] ∧ closes conn' = 0%nat.
Proof.
  eexists. split.
  - apply (handleAccept_parse_error bare_env (fresh_conn "GET / HTTP/1.1") []
             (MalformedRequestLine EOF)).
    vm_compute. exact eq_refl.
  - done.
Defined.

(** The handlers that answer do close the connection. *)
Lemma handleAboutPage_closes (env : Env) (s : Service) (log : list log_entry) :
  closes (Router_Conn (Service_Router (handleAboutPage env s log).1))
  = S (closes (Router_Conn (Service_Router s))).
Proof.
  unfold handleAboutPage. destruct (ReadFile env _); simpl;
    unfold Conn_Write; by case_bool_decide.
Qed.

(** A request that matches none of the three routes goes through [Mux]
    without any handler being called. *)
Lemma Mux_unrouted (env : Env) (r : Router) (log : list log_entry) :
  ¬ routed (Method (Router_Req r)) (URI (Router_Req r)) →
  Mux env r log = (NewService r, log).
Proof.
  intros Hr. unfold Mux, routed in *.
  repeat case_bool_decide; try done; exfalso; apply Hr; auto.
Qed.

(** C7. A request that is parsed and matches none of the three routes
    leaves the connection as it was accepted: nothing is written to it,
    no 404 response either, and it is not closed. *)
Theorem handleAccept_unrouted (env : Env) (conn : Conn) (log : list log_entry)
    (req : Req) :
  NewRequest conn = Ok req →
  ¬ routed (Method req) (URI req) →
  handleAccept env conn log = Ok (conn, log).
Proof.
  intros Hreq Hr. unfold handleAccept. rewrite Hreq.
  by rewrite Mux_unrouted.
Qed.

Lemma handleAccept_unrouted_witness :
  handleAccept bare_env
    (fresh_conn ("GET /unknown-path HTTP/1.1" ++ CRLF ++ CRLF)) []
  = Ok (fresh_conn ("GET /unknown-path HTTP/1.1" ++ CRLF ++ CRLF), []).
Proof.
  apply (handleAccept_unrouted bare_env _ [] (mkReq "GET" "/unknown-path" ∅ [])).
  - vm_compute. exact eq_refl.
  - unfold routed. simpl. intros [[_ ?]|[[_ ?]|[? _]]]; discriminate.
Defined.

(** ** The serializer *)

(** C2. The response is the status line, the Content-Type header, the
    Content-Length header, an empty line and the body, in this order and
    with nothing else; the digits of Content-Length denote the number of
    bytes of the body. *)
Theorem NewResponse_bytes (status : Z) (data contentType : gostring) :
  NewResponse status data contentType
  = "HTTP/1.1 " ++ strconv.Itoa status ++ " " ++ StatusText status ++ CRLF
    ++ "Content-Type: " ++ contentType ++ CRLF
    ++ "Content-Length: " ++ strconv.Itoa (len data) ++ CRLF
    ++ CRLF ++ data
  ∧ decimal_value (strconv.Itoa (len data)) = Some (Z.of_nat (length data))
  ∧ NewResponse 200 "success" "application/json"
    = "HTTP/1.1 200 OK" ++ CRLF ++ "Content-Type: application/json" ++ CRLF
      ++ "Content-Length: 7" ++ CRLF ++ CRLF ++ "success".
Proof.
  split_and!.
  - unfold NewResponse. by rewrite <- !app_assoc.
  - apply Itoa_decimal_value. unfold len. lia.
  - vm_compute. exact eq_refl.
Qed.

(** C10. [NewResponse] is a function of its three arguments with no error
    result. For a status that is not a registered code the reason phrase
    is empty, and the status line ends with a space before CRLF. *)
Theorem NewResponse_unregistered_status (status : Z)
    (data contentType : gostring) :
  status ∉ registered_codes →
  NewResponse status data contentType
  = "HTTP/1.1 " ++ strconv.Itoa status ++ " " ++ CRLF
    ++ "Content-Type: " ++ contentType ++ CRLF
    ++ "Content-Length: " ++ strconv.Itoa (len data) ++ CRLF
    ++ CRLF ++ data.
Proof.
  intros Hs. unfold NewResponse. rewrite StatusText_unregistered by done.
  by rewrite <- !app_assoc.
Qed.

Lemma NewResponse_unregistered_status_witness :
  NewResponse 799 "gone" "text/plain"
  = "HTTP/1.1 799 " ++ CRLF ++ "Content-Type: text/plain" ++ CRLF
    ++ "Content-Length: 4" ++ CRLF ++ CRLF ++ "gone".
Proof.
  apply (NewResponse_unregistered_status 799 "gone" "text/plain").
  compute_done.
Defined.

(** * Further properties of the parser *)

(** ** Lines and the header loop in general *)

Lemma IndexByte_Some (s : gostring) (c : ascii) (i : nat) :
  strings.IndexByte s c = Some i →
  ∃ l rest, s = l ++ c :: rest ∧ (c ∉ l) ∧ length l = i.
Proof.
  revert i. induction s as [|x s IH]; intros i Hi; simplify_eq/=.
  case_bool_decide as Hx; simplify_eq/=.
  { exists [], s. split_and!; [done|apply not_elem_of_nil|done]. }
  destruct (strings.IndexByte s c) as [j|]; simplify_eq/=.
  destruct (IH j eq_refl) as (l & rest & -> & Hl & <-).
  exists (x :: l), rest. split_and!; [done| |done].
  apply not_elem_of_cons. split; [congruence|done].
Qed.

(** A read of a line either finds the delimiter or uses the stream up. *)
Lemma ReadString_cases (r : Reader) (delim : ascii) :
  (∃ l rest, pending r = l ++ delim :: rest ∧ (delim ∉ l)
             ∧ ReadString r delim = (l ++ [delim], None, mkReader rest (ending r)))
  ∨ ((delim ∉ pending r)
     ∧ ReadString r delim = (pending r, Some (ending r), mkReader [] (ending r))).
Proof.
  destruct (strings.IndexByte (pending r) delim) as [i|] eqn:Hi.
  - left. apply IndexByte_Some in Hi as (l & rest & Hp & Hl & <-).
    exists l, rest. split_and!; [done..|].
    destruct r as [p e]. simpl in *. subst p. by apply ReadString_line.
  - right. apply IndexByte_None in Hi. split; [done|].
    destruct r as [p e]. by apply ReadString_end.
Qed.

(** The header line the loop works on, for a line read up to its line
    feed: the line without its CRLF, or the whole line, line feed
    included, when no carriage return stands before the line feed. *)
Lemma header_line_cases (l : gostring) :
  (∃ l', l = l' ++ [CR] ∧ strings.TrimSuffix (l ++ [LF]) CRLF = l')
  ∨ strings.TrimSuffix (l ++ [LF]) CRLF = l ++ [LF].
Proof.
  destruct l as [|x l' _] using rev_ind.
  { right. by vm_compute. }
  destruct (decide (x = CR)) as [->|Hx].
  - left. exists l'. split; [done|].
    rewrite <- app_assoc. apply TrimSuffix_app.
  - right. apply TrimSuffix_no_suffix. intros [p Hp].
    change CRLF with ([CR] ++ [LF]) in Hp. rewrite (app_assoc p) in Hp.
    apply app_inj_tail in Hp as [Hp _]. by apply app_inj_tail in Hp as [_ ?].
Qed.

(** ** [TrimSpace] once more *)

Section trim_again.
Import strings.

Lemma TrimSpace_elem (c : ascii) (s : gostring) : c ∈ TrimSpace s → c ∈ s.
Proof.
  intros Hc. destruct (TrimSpace_shape s) as (p & q & Hs & _).
  rewrite Hs, !elem_of_app. auto.
Qed.

(** A string with no white space at either end is left as it is. *)
Lemma TrimSpace_fixed (t : gostring) :
  (∀ w x, space_rune w → t ≠ w ++ x) →
  (∀ w x, space_rune w → t ≠ x ++ w) →
  TrimSpace t = t.
Proof.
  intros Hhd Hlast. unfold TrimSpace, TrimLeftSpace, TrimRightSpace.
  destruct (dropSpaces_cases space2 space3 t) as [[-> _]|(w & s' & -> & Hw & _)].
  2:{ by destruct (Hhd w s'). }
  destruct (dropSpaces_cases (λ c2 c1, space2 c1 c2)
              (λ c3 c2 c1, space3 c1 c2 c3) (rev t))
    as [[-> _]|(w & s' & Hrev & Hw & _)].
  { apply rev_involutive. }
  destruct (Hlast (rev w) (rev s')); [by apply rune_rev|].
  by rewrite <- rev_app_distr, <- Hrev, rev_involutive.
Qed.

Lemma TrimSpace_idemp (s : gostring) : TrimSpace (TrimSpace s) = TrimSpace s.
Proof.
  destruct (TrimSpace_shape s) as (p & q & _ & _ & _ & Hhd & Hlast).
  by apply TrimSpace_fixed.
Qed.

(** A line feed at the very end of a string is trimmed away. *)
Lemma TrimSpace_final_LF (s : gostring) :
  LF ∉ s → LF ∉ TrimSpace (s ++ [LF]).
Proof.
  intros Hs Hin.
  destruct (TrimSpace_shape (s ++ [LF])) as (p & q & Heq & _ & _ & _ & Hlast).
  apply list_elem_of_split in Hin as (a & b & Ht).
  rewrite Ht in Heq.
  assert (b ++ q = []) as Hbq.
  { destruct (b ++ q) as [|y z] eqn:Hz using rev_ind; [done|].
    exfalso. clear IHz. rewrite <- !app_assoc in Heq. simpl in Heq.
    rewrite Hz in Heq.
    replace (p ++ a ++ LF :: z ++ [y]) with ((p ++ a ++ LF :: z) ++ [y]) in Heq
      by (by rewrite <- !app_assoc).
    apply app_inj_tail in Heq as [-> _].
    apply Hs. rewrite !elem_of_app, elem_of_cons. auto. }
  apply app_eq_nil in Hbq as [-> ->].
  apply (Hlast [LF] a); [|done].
  constructor. by vm_compute.
Qed.

End trim_again.

(** ** What the header loop does to the mapping and to the stream *)

Lemma SplitN2_cases (s : gostring) (sep : ascii) :
  (∃ name value, s = name ++ sep :: value ∧ (sep ∉ name)
                 ∧ strings.SplitN s sep 2 = [name; value])
  ∨ ((sep ∉ s) ∧ strings.SplitN s sep 2 = [s]).
Proof.
  destruct (strings.IndexByte s sep) as [i|] eqn:Hi.
  - left. apply IndexByte_Some in Hi as (name & value & -> & Hn & _).
    exists name, value. split_and!; [done..|]. by apply SplitN2_cut.
  - right. apply IndexByte_None in Hi. split; [done|]. by apply SplitN2_whole.
Qed.

Lemma header_entry_of_line (l name value : gostring) :
  LF ∉ l →
  strings.TrimSuffix (l ++ [LF]) CRLF = name ++ ":"%char :: value →
  ":"%char ∉ name →
  header_entry (strings.TrimSpace name) (strings.TrimSpace value).
Proof.
  intros Hl Hline Hname. unfold header_entry.
  rewrite !TrimSpace_idemp. split_and!; [done..| | |].
  - intros ?%TrimSpace_elem. done.
  - intros Hin%TrimSpace_elem.
    destruct (header_line_cases l) as [(l' & -> & Hl')|Hl'];
      rewrite Hl' in Hline.
    + apply Hl. rewrite Hline, !elem_of_app. auto.
    + destruct value as [|y value _] using rev_ind.
      * change (name ++ [":"%char]) with (name ++ [":"%char]) in Hline.
        apply app_inj_tail in Hline as [_ ?]. done.
      * rewrite (app_comm_cons value [y]), app_assoc in Hline.
        apply app_inj_tail in Hline as [-> _].
        apply Hl. rewrite elem_of_app. auto.
  - destruct (header_line_cases l) as [(l' & -> & Hl')|Hl'];
      rewrite Hl' in Hline.
    + intros Hin%TrimSpace_elem.
      apply Hl. rewrite Hline, !elem_of_app, elem_of_cons. auto.
    + destruct value as [|y value _] using rev_ind.
      * intros Hin. by apply elem_of_nil in Hin.
      * rewrite (app_comm_cons value [y]), app_assoc in Hline.
        apply app_inj_tail in Hline as [Hl'' <-].
        apply TrimSpace_final_LF. intros Hin. apply Hl.
        rewrite Hl'', elem_of_app, elem_of_cons. auto.
Qed.

(** The rule of the loop: a property of the mapping that every stored
    entry keeps holds of the result; and the loop returns the stream it
    was given, less a front part. *)
Lemma readHeaders_invariant (P : gmap gostring gostring → Prop) :
  (∀ m k v, P m → header_entry k v → P (<[k := v]> m)) →
  ∀ (reader : Reader) (headers headers' : gmap gostring gostring)
    (reader' : Reader),
  P headers →
  readHeaders reader headers = Ok (headers', reader') →
  P headers'
  ∧ ending reader' = ending reader
  ∧ ∃ used, pending reader = used ++ pending reader'.
Proof.
  intros Hstep reader.
  remember (length (pending reader)) as n eqn:Hn. revert reader Hn.
  induction n as [n IH] using lt_wf_ind.
  intros reader -> headers headers' reader' HP Hrun.
  rewrite readHeaders_step in Hrun.
  destruct (ReadString_cases reader LF)
    as [(l & rest & Hp & Hl & Hread)|[Hl Hread]]; rewrite Hread in Hrun.
  2:{ destruct (ending reader) eqn:He; simplify_eq/=.
      split_and!; [done..|]. exists (pending reader). by rewrite app_nil_r. }
  cbv zeta in Hrun.
  assert (∀ h h' r, P h →
            readHeaders (mkReader rest (ending reader)) h = Ok (h', r) →
            P h' ∧ ending r = ending reader
            ∧ ∃ used, pending reader = used ++ pending r) as Hrec.
  { intros h h' r Hh Hr.
    destruct (IH (length rest)) with (reader := mkReader rest (ending reader))
      (headers := h) (headers' := h') (reader' := r)
      as (HP' & He & used & Hused); [|done..|].
    { rewrite Hp, length_app. simpl. lia. }
    split_and!; [done..|]. exists (l ++ LF :: used).
    simpl in Hused. by rewrite Hp, Hused, <- app_assoc. }
  case_bool_decide as Hempty.
  { simplify_eq/=. split_and!; [done..|]. by exists (l ++ [LF]); rewrite <- app_assoc. }
  destruct (SplitN2_cases (strings.TrimSuffix (l ++ [LF]) CRLF) ":")
    as [(name & value & Hline & Hname & Hsplit)|[_ Hsplit]];
    rewrite Hsplit in Hrun.
  - apply Hrec in Hrun; [done|]. apply Hstep; [done|].
    by apply (header_entry_of_line l).
  - by apply Hrec in Hrun.
Qed.

(** The loop returns a mapping and the rest of the stream, or the error
    of a broken connection; it does not panic, and it cannot fail when the
    peer has closed its side. *)
Lemma readHeaders_outcome (reader : Reader) (headers : gmap gostring gostring) :
  (∃ headers' reader', readHeaders reader headers = Ok (headers', reader'))
  ∨ (readHeaders reader headers = Err (HeaderReadError (ending reader))
     ∧ ending reader ≠ EOF).
Proof.
  remember (length (pending reader)) as n eqn:Hn. revert reader headers Hn.
  induction n as [n IH] using lt_wf_ind. intros reader headers ->.
  rewrite readHeaders_step.
  destruct (ReadString_cases reader LF)
    as [(l & rest & Hp & Hl & Hread)|[Hl Hread]]; rewrite Hread.
  2:{ destruct (ending reader) eqn:He; [left; by eexists _, _|by right..]. }
  cbv zeta.
  assert (∀ h,
    (∃ headers' reader',
       readHeaders (mkReader rest (ending reader)) h = Ok (headers', reader'))
    ∨ (readHeaders (mkReader rest (ending reader)) h
         = Err (HeaderReadError (ending reader)) ∧ ending reader ≠ EOF)) as Hrec.
  { intros h.
    assert (length rest < length (pending reader))%nat as Hlt
      by (rewrite Hp, length_app; simpl; lia).
    exact (IH _ Hlt (mkReader rest (ending reader)) h eq_refl). }
  case_bool_decide; [left; by eexists _, _|].
  destruct (strings.SplitN _ _ _) as [|? [|? [|? ?]]]; apply Hrec.
Qed.

(** ** The steps of [NewRequest], read backwards *)

Lemma bind_Ok {A B} (x : outcome A) (k : A → outcome B) (b : B) :
  x ≫= k = Ok b → ∃ a, x = Ok a ∧ k a = Ok b.
Proof. destruct x; simpl; [by eexists|done..]. Qed.

Lemma NewRequest_Ok (conn : Conn) (req : Req) :
  NewRequest conn = Ok req →
  ∃ reader, readHead conn = Ok (Method req, URI req, Headers req, reader)
            ∧ readBody (Headers req) reader = Ok (Body req).
Proof.
  unfold NewRequest. intros ([[[m u] h] r] & Hhead & Hrest)%bind_Ok.
  apply bind_Ok in Hrest as (body & Hbody & Hreq). simplify_eq/=.
  by exists r.
Qed.

Lemma readHead_Ok (conn : Conn) (method uri : gostring)
    (headers : gmap gostring gostring) (reader : Reader) :
  readHead conn = Ok (method, uri, headers, reader) →
  ∃ l rest tokens,
    incoming conn = l ++ LF :: rest ∧ (LF ∉ l)
    ∧ strings.Split (strings.TrimSpace (strings.TrimSuffix (l ++ [LF]) CRLF)) " "
      = method :: uri :: tokens
    ∧ readHeaders (mkReader rest (hangup conn)) ∅ = Ok (headers, reader).
Proof.
  unfold readHead. intros Hhead.
  destruct (ReadString_cases (NewReader conn) LF)
    as [(l & rest & Hp & Hl & Hread)|[Hl Hread]]; rewrite Hread in Hhead;
    [|done].
  cbv zeta in Hhead. simpl in Hp.
  apply bind_Ok in Hhead as (m & Hm & Hhead).
  apply bind_Ok in Hhead as (u & Hu & Hhead).
  apply bind_Ok in Hhead as ([h r] & Hh & Hhead).
  injection Hhead as -> -> -> ->.
  exists l, rest. unfold index in Hm, Hu.
  destruct (strings.Split _ _) as [|m' [|u' tokens]]; simplify_eq/=.
  by exists tokens.
Qed.

Lemma readBody_Ok (headers : gmap gostring gostring) (reader : Reader)
    (body : gostring) :
  readBody headers reader = Ok body →
  match headers !! ("Content-Length" : gostring) with
  | Some v => ∃ n, strconv.Atoi v = inr n ∧ 0 ≤ n ≤ maxAlloc
                   ∧ n ≤ len (pending reader)
                   ∧ body = take (Z.to_nat n) (pending reader)
  | None => body = []
  end.
Proof.
  unfold readBody. destruct (headers !! _) as [v|]; [|by intros [= <-]].
  destruct (strconv.Atoi v) as [|n]; [done|].
  intros (k & Hk & Hread)%bind_Ok. unfold make_bytes in Hk.
  destruct (n <? 0) eqn:Hneg; [done|]. destruct (n >? maxAlloc) eqn:Hbig; [done|].
  simplify_eq/=. unfold ReadFull in Hread.
  case_bool_decide as Hlen; simplify_eq/=.
  exists n. unfold len. split_and!; [done|lia..|done].
Qed.

Lemma readBody_available (headers : gmap gostring gostring) (reader : Reader)
    (v : gostring) (n : Z) :
  headers !! ("Content-Length" : gostring) = Some v →
  strconv.Atoi v = inr n →
  0 ≤ n ≤ maxAlloc → n ≤ len (pending reader) →
  readBody headers reader = Ok (take (Z.to_nat n) (pending reader)).
Proof.
  intros Hcl Hv Hn Hlen. unfold readBody. rewrite Hcl, Hv.
  unfold make_bytes. destruct (n <? 0) eqn:?; [lia|].
  destruct (n >? maxAlloc) eqn:?; [lia|]. simpl.
  unfold ReadFull, len in *. by rewrite bool_decide_eq_true_2 by lia.
Qed.

(** ** Requests that are returned *)

(** X1. In every request the parser returns, the body has the length the
    Content-Length header of that request gives, and it is empty when the
    request has no such header. *)
Theorem NewRequest_body_length (conn : Conn) (req : Req) :
  NewRequest conn = Ok req →
  match Headers req !! ("Content-Length" : gostring) with
  | Some v => strconv.Atoi v = inr (len (Body req))
  | None => Body req = []
  end.
Proof.
  intros (reader & _ & Hbody%readBody_Ok)%NewRequest_Ok.
  destruct (Headers req !! _) as [v|]; [|done].
  destruct Hbody as (n & Hv & Hn & Hlen & ->). rewrite Hv. f_equal.
  unfold len in *. rewrite length_take. lia.
Qed.

Lemma sample_head :
  readHead sample_conn
  = Ok ("POST" : gostring, "/" : gostring, sample_headers, mkReader "abcdef" EOF).
Proof. apply readHead_well_formed; literal. Qed.

Lemma sample_Content_Length :
  sample_headers !! ("Content-Length" : gostring) = Some ("+3" : gostring).
Proof. unfold sample_headers. by rewrite foldl_store_header_lookup. Qed.

Lemma sample_run :
  NewRequest sample_conn = Ok (mkReq "POST" "/" sample_headers "abc").
Proof.
  unfold NewRequest. rewrite sample_head. cbn [mbind outcome_bind].
  by rewrite (readBody_available _ _ "+3" 3)
    by first [apply sample_Content_Length | by vm_compute].
Qed.

Lemma NewRequest_body_length_witness :
  NewRequest sample_conn = Ok (mkReq "POST" "/" sample_headers "abc")
  ∧ strconv.Atoi "+3" = inr (len ("abc" : gostring)).
Proof.
  split; [exact sample_run|].
  pose proof (NewRequest_body_length _ _ sample_run) as Hlen.
  cbn [Headers Body] in Hlen. by rewrite sample_Content_Length in Hlen.
Defined.

(** X2. When the headers have been read and the Content-Length header
    holds a number, in the form [Atoi] accepts, that is not negative and
    not larger than what is left in the stream, the body is the first
    bytes of what is left, as many as declared; what follows them is not
    part of the request. *)
Theorem NewRequest_body_available (conn : Conn) (method uri v : gostring)
    (headers : gmap gostring gostring) (reader : Reader) (n : Z) :
  readHead conn = Ok (method, uri, headers, reader) →
  headers !! ("Content-Length" : gostring) = Some v →
  strconv.Atoi v = inr n →
  0 ≤ n ≤ maxAlloc →
  n ≤ len (pending reader) →
  NewRequest conn
  = Ok (mkReq method uri headers (take (Z.to_nat n) (pending reader))).
Proof.
  intros Hhead Hcl Hv Hn Hlen. unfold NewRequest. rewrite Hhead.
  cbn [mbind outcome_bind]. by rewrite (readBody_available _ _ v n).
Qed.

Lemma NewRequest_body_available_witness :
  NewRequest sample_conn = Ok (mkReq "POST" "/" sample_headers "abc").
Proof.
  apply (NewRequest_body_available sample_conn "POST" "/" "+3" sample_headers
           (mkReader "abcdef" EOF) 3).
  - apply sample_head.
  - apply sample_Content_Length.
  - vm_compute. exact eq_refl.
  - vm_compute. split; discriminate.
  - vm_compute. discriminate.
Defined.

(** X3. The body of a returned request is a piece of the bytes received:
    the stream is some front part, then the body, then a remainder. *)
Theorem NewRequest_body_from_stream (conn : Conn) (req : Req) :
  NewRequest conn = Ok req →
  ∃ front rest, incoming conn = front ++ Body req ++ rest ∧ (LF ∈ front).
Proof.
  intros (reader & Hhead & Hbody%readBody_Ok)%NewRequest_Ok.
  apply readHead_Ok in Hhead as (l & tail & tokens & Hin & Hl & _ & Hloop).
  apply (readHeaders_invariant (λ _, True)) in Hloop
    as (_ & _ & used & Hused); [|done..].
  simpl in Hused.
  destruct (Headers req !! _) as [v|].
  - destruct Hbody as (n & _ & _ & _ & ->).
    exists (l ++ LF :: used), (drop (Z.to_nat n) (pending reader)).
    split; [|rewrite elem_of_app, elem_of_cons; auto].
    by rewrite Hin, Hused, <- app_assoc, <- app_comm_cons, take_drop.
  - rewrite Hbody. exists (l ++ LF :: used), (pending reader).
    split; [|rewrite elem_of_app, elem_of_cons; auto].
    by rewrite Hin, Hused, <- app_assoc.
Qed.

Lemma NewRequest_body_from_stream_witness :
  NewRequest sample_conn = Ok (mkReq "POST" "/" sample_headers "abc")
  ∧ ∃ front rest, incoming sample_conn = front ++ "abc" ++ rest ∧ (LF ∈ front).
Proof.
  split; [exact sample_run|].
  exact (NewRequest_body_from_stream _ _ sample_run).
Defined.

(** ** Errors and panics *)

(** X4. The parser fails at the request line exactly when the stream
    holds no line feed, the empty stream included; the error is the one
    the connection ended with. *)
Theorem NewRequest_no_line_feed (conn : Conn) (err : io_error) :
  NewRequest conn = Err (MalformedRequestLine err)
  ↔ (LF ∉ incoming conn) ∧ err = hangup conn.
Proof.
  unfold NewRequest, readHead.
  destruct (ReadString_cases (NewReader conn) LF)
    as [(l & rest & Hp & Hl & Hread)|[Hl Hread]]; rewrite Hread; simpl in *.
  - split.
    + intros Hrun. exfalso.
      unfold index in Hrun.
      destruct (_ !! 0%nat) as [m|]; simpl in Hrun; [|done].
      destruct (_ !! 1%nat) as [u|]; simpl in Hrun; [|done].
      destruct (readHeaders_outcome (mkReader rest (hangup conn)) ∅)
        as [(h & r & Hh)|[Hh _]]; rewrite Hh in Hrun; simpl in Hrun; [|done].
      unfold readBody in Hrun.
      destruct (h !! _); simpl in Hrun; [|done].
      destruct (strconv.Atoi _); simpl in Hrun; [done|].
      unfold make_bytes in Hrun. destruct (_ || _); simpl in Hrun; [done|].
      by destruct (ReadFull _ _) as [[? [?|]] ?].
    + intros [Hno _]. destruct Hno. rewrite Hp, elem_of_app, elem_of_cons. auto.
  - split; [by intros [= <-]|by intros [_ ->]].
Qed.

(** X5. An error from the header loop means that the connection broke:
    the error is the one the connection ended with, and it is not
    [io.EOF]. When the peer closes its side the headers end there. *)
Theorem NewRequest_header_error (conn : Conn) (err : io_error) :
  NewRequest conn = Err (HeaderReadError err) →
  err = hangup conn ∧ err ≠ EOF.
Proof.
  unfold NewRequest, readHead.
  destruct (ReadString_cases (NewReader conn) LF)
    as [(l & rest & Hp & Hl & Hread)|[Hl Hread]]; rewrite Hread; simpl in *;
    [|done].
  intros Hrun.
  unfold index in Hrun.
  destruct (_ !! 0%nat) as [m|]; simpl in Hrun; [|done].
  destruct (_ !! 1%nat) as [u|]; simpl in Hrun; [|done].
  destruct (readHeaders_outcome (mkReader rest (hangup conn)) ∅)
    as [(h & r & Hh)|[Hh Hne]]; rewrite Hh in Hrun; simpl in Hrun.
  - exfalso. unfold readBody in Hrun.
    destruct (h !! _); simpl in Hrun; [|done].
    destruct (strconv.Atoi _); simpl in Hrun; [done|].
    unfold make_bytes in Hrun. destruct (_ || _); simpl in Hrun; [done|].
    by destruct (ReadFull _ _) as [[? [?|]] ?].
  - by injection Hrun as <-.
Qed.

Lemma NewRequest_header_error_witness :
  let conn := mkConn ("GET / HTTP/1.1" ++ CRLF ++ "Host: x") ErrNet [] 0 in
  NewRequest conn = Err (HeaderReadError ErrNet)
  ∧ ErrNet = hangup conn ∧ ErrNet ≠ EOF.
Proof.
  cbv zeta.
  assert (NewRequest (mkConn ("GET / HTTP/1.1" ++ CRLF ++ "Host: x") ErrNet [] 0)
          = Err (HeaderReadError ErrNet)) as Hrun
    by (vm_compute; exact eq_refl).
  split; [exact Hrun|]. exact (NewRequest_header_error _ _ Hrun).
Defined.

(** X6. The parser panics in two ways only: at the index expression for
    the URI, on a slice of one element, and in [make]. The index
    expression for the method never panics. *)
Theorem NewRequest_panics (conn : Conn) (p : panic) :
  NewRequest conn = Panic p →
  p = IndexOutOfRange 1 1 ∨ p = MakesliceLenOutOfRange.
Proof.
  unfold NewRequest, readHead.
  destruct (ReadString_cases (NewReader conn) LF)
    as [(l & rest & Hp & Hl & Hread)|[Hl Hread]]; rewrite Hread; simpl in *;
    [|done].
  intros Hrun. unfold strings.Split, index in Hrun.
  destruct (strings.Count _ _) as [|cuts]; simpl in Hrun.
  { injection Hrun as <-. by left. }
  destruct (strings.IndexByte _ _) as [i|]; simpl in Hrun.
  2:{ injection Hrun as <-. by left. }
  assert (∃ x y, strings.genSplit
            (drop (S i) (strings.TrimSpace (strings.TrimSuffix (l ++ [LF]) CRLF)))
            " " cuts = x :: y) as (x & y & Hsplit).
  { destruct cuts; simpl; [by eexists _, _|].
    destruct (strings.IndexByte _ _); by eexists _, _. }
  rewrite Hsplit in Hrun. simpl in Hrun.
  destruct (readHeaders_outcome (mkReader rest (hangup conn)) ∅)
    as [(h & r & Hh)|[Hh Hne]]; rewrite Hh in Hrun; simpl in Hrun; [|done].
  unfold readBody in Hrun.
  destruct (h !! _); simpl in Hrun; [|done].
  destruct (strconv.Atoi _); simpl in Hrun; [done|].
  unfold make_bytes in Hrun.
  destruct (_ || _); simpl in Hrun.
  { injection Hrun as <-. by right. }
  by destruct (ReadFull _ _) as [[? [?|]] ?].
Qed.

Lemma NewRequest_panics_witness :
  NewRequest (fresh_conn ("GET" ++ CRLF ++ CRLF)) = Panic (IndexOutOfRange 1 1)
  ∧ (IndexOutOfRange 1 1 = IndexOutOfRange 1 1
     ∨ IndexOutOfRange 1 1 = MakesliceLenOutOfRange).
Proof.
  assert (NewRequest (fresh_conn ("GET" ++ CRLF ++ CRLF))
          = Panic (IndexOutOfRange 1 1)) as Hrun
    by (vm_compute; exact eq_refl).
  split; [exact Hrun|]. exact (NewRequest_panics _ _ Hrun).
Defined.

(** ** The header mapping of a returned request *)

(** X7. Every header of a returned request has a name and a value with no
    white space at their ends and no line feed inside, and a name without
    a colon. *)
Theorem NewRequest_header_entries (conn : Conn) (req : Req) (k v : gostring) :
  NewRequest conn = Ok req →
  Headers req !! k = Some v →
  header_entry k v.
Proof.
  intros (reader & Hhead & _)%NewRequest_Ok.
  apply readHead_Ok in Hhead as (l & tail & tokens & _ & _ & _ & Hloop).
  apply (readHeaders_invariant
           (λ m, ∀ k v, m !! k = Some v → header_entry k v)) in Hloop
    as (Hall & _); [by apply Hall|..].
  - intros m k' v' Hm Hentry k'' v''. rewrite lookup_insert.
    case_decide; [by intros [= <-]; subst|apply Hm].
  - intros k' v'. by rewrite lookup_empty.
Qed.

Lemma NewRequest_header_entries_witness :
  NewRequest sample_conn = Ok (mkReq "POST" "/" sample_headers "abc")
  ∧ sample_headers !! ("Content-Length" : gostring) = Some ("+3" : gostring)
  ∧ header_entry "Content-Length" "+3".
Proof.
  split_and!; [exact sample_run|exact sample_Content_Length|].
  apply (NewRequest_header_entries sample_conn _ _ _ sample_run).
  apply sample_Content_Length.
Defined.

(** * Further properties of the router and the handlers *)

Lemma respond_and_close (s : Service) (resp : gostring) :
  closes (Router_Conn (Service_Router s)) = 0%nat →
  on_conn Conn_Close (on_conn (Conn_Write resp) s)
  = on_conn (λ conn, answered conn resp) s.
Proof.
  intros Hopen. unfold on_conn, Conn_Write, Conn_Close, answered. simpl.
  rewrite bool_decide_eq_true_2 by done. simpl. by rewrite Hopen.
Qed.

Lemma Mux_about (env : Env) (r : Router) (log : list log_entry) :
  Method (Router_Req r) = "GET" → URI (Router_Req r) = "/about" →
  Mux env r log = handleAboutPage env (NewService r) log.
Proof.
  intros Hm Hu. unfold Mux. rewrite Hm, Hu.
  repeat (case_bool_decide; try done).
  all: by destruct (_ env (NewService r) log).
Qed.

Lemma Mux_index (env : Env) (r : Router) (log : list log_entry) :
  Method (Router_Req r) = "GET" → URI (Router_Req r) = "/" →
  Mux env r log = handleIndexPage env (NewService r) log.
Proof.
  intros Hm Hu. unfold Mux. rewrite Hm, Hu.
  repeat (case_bool_decide; try done).
  by destruct (handleIndexPage _ _ _).
Qed.

Lemma Mux_input (env : Env) (r : Router) (log : list log_entry) :
  Method (Router_Req r) = "POST" → URI (Router_Req r) = "/" →
  Mux env r log = handleInputData env (NewService r) log.
Proof.
  intros Hm Hu. unfold Mux. rewrite Hm, Hu.
  repeat (case_bool_decide; try done).
  all: by destruct (_ env (NewService r) log).
Qed.

(** X8. [GET /about] is answered with status 200 and the content of
    [static/about.html], and the connection is closed once. When the file
    cannot be read, the error is logged and the answer is still a 200,
    with an empty body. *)
Theorem handleAccept_about (env : Env) (conn : Conn) (log : list log_entry)
    (req : Req) :
  NewRequest conn = Ok req →
  Method req = "GET" → URI req = "/about" →
  closes conn = 0%nat →
  handleAccept env conn log
  = Ok (answered conn
          (NewResponse 200 (file_or_empty env "static/about.html") "text/html"),
        log ++ file_log env "static/about.html").
Proof.
  intros Hreq Hm Hu Hopen. unfold handleAccept. rewrite Hreq.
  rewrite Mux_about by done.
  unfold handleAboutPage, file_or_empty, file_log.
  destruct (ReadFile env _) as [buffer|]; rewrite respond_and_close by done;
    simpl; by rewrite ?app_nil_r.
Qed.

(** A request without headers and without body. *)
Lemma plain_request_run (method uri : gostring) :
  method ≠ [] → Forall visible method → Forall visible uri →
  NewRequest (fresh_conn (request_text method uri [] []))
  = Ok (mkReq method uri ∅ []).
Proof.
  intros Hne Hm Hu. unfold NewRequest, fresh_conn.
  by rewrite readHead_well_formed.
Qed.

Lemma handleAccept_about_witness :
  handleAccept sample_env (fresh_conn (request_text "GET" "/about" [] [])) []
  = Ok (answered (fresh_conn (request_text "GET" "/about" [] []))
          (NewResponse 200 "<p>about</p>" "text/html"), []).
Proof.
  apply (handleAccept_about sample_env _ [] (mkReq "GET" "/about" ∅ []));
    [apply plain_request_run; literal|done..].
Defined.

(** X9. [POST /] with a body that [json.Unmarshal] accepts is answered
    with the response [success] of status 200, whatever the input is, and
    the connection is closed once. With a body it refuses, nothing is
    written and the connection is left open; the error is logged. *)
Theorem handleAccept_input (env : Env) (conn : Conn) (log : list log_entry)
    (req : Req) :
  NewRequest conn = Ok req →
  Method req = "POST" → URI req = "/" →
  closes conn = 0%nat →
  handleAccept env conn log
  = match json_Unmarshal env (Body req) with
    | Some input =>
        Ok (answered conn (NewResponse 200 "success" "application/json"),
            log ++ [LogBody (Body req); LogInput input])
    | None => Ok (conn, log ++ [LogBody (Body req); LogUnmarshalError])
    end.
Proof.
  intros Hreq Hm Hu Hopen. unfold handleAccept. rewrite Hreq.
  rewrite Mux_input by done. unfold handleInputData.
  cbn [NewService NewRouter Service_Router Router_Req Service_Store].
  destruct (json_Unmarshal env _) as [input|].
  - rewrite respond_and_close by done. simpl. by rewrite <- app_assoc.
  - simpl. by rewrite <- app_assoc.
Qed.

Lemma handleAccept_input_witness :
  handleAccept sample_env sample_conn []
  = Ok (answered sample_conn (NewResponse 200 "success" "application/json"),
        [LogBody "abc"; LogInput "abc"]).
Proof.
  exact (handleAccept_input sample_env sample_conn [] _ sample_run
           eq_refl eq_refl eq_refl).
Defined.

(** X10. [GET /] renders the template with the store of the service made
    for this connection, which is empty: what earlier requests posted is
    not in it. The page is sent with status 200 and the connection closed
    once; when the template does not parse or does not render, nothing is
    written and the connection is left open. *)
Theorem handleAccept_index (env : Env) (conn : Conn) (log : list log_entry)
    (req : Req) :
  NewRequest conn = Ok req →
  Method req = "GET" → URI req = "/" →
  closes conn = 0%nat →
  handleAccept env conn log
  = let text := file_or_empty env "static/index.html" in
    let log := log ++ file_log env "static/index.html" in
    if negb (template_Parse env text)
    then Ok (conn, log ++ [LogTemplateError])
    else match template_Execute env text ∅ with
         | Some page =>
             Ok (answered conn (NewResponse 200 page "text/html"),
                 log ++ [LogStore ∅])
         | None => Ok (conn, log ++ [LogStore ∅; LogTemplateError])
         end.
Proof.
  intros Hreq Hm Hu Hopen. unfold handleAccept. rewrite Hreq.
  rewrite Mux_index by done.
  unfold handleIndexPage, file_or_empty, file_log.
  cbn [NewService NewRouter Service_Router Router_Req Service_Store].
  destruct (ReadFile env _) as [buffer|]; cbn [default];
    (destruct (template_Parse env _); cbn [negb];
     [destruct (template_Execute env _ ∅) as [page|];
      [rewrite respond_and_close by done|]|]);
    simpl; by rewrite ?app_nil_r, <- ?app_assoc.
Qed.

Lemma handleAccept_index_witness :
  handleAccept sample_env (fresh_conn (request_text "GET" "/" [] [])) []
  = Ok (answered (fresh_conn (request_text "GET" "/" [] []))
          (NewResponse 200 "" "text/html"),
        [LogFileError "static/index.html"; LogStore ∅]).
Proof.
  exact (handleAccept_index sample_env _ [] (mkReq "GET" "/" ∅ [])
           ltac:(apply plain_request_run; literal) eq_refl eq_refl eq_refl).
Defined.

Lemma handleIndexPage_handled (env : Env) (s : Service) (log : list log_entry) :
  closes (Router_Conn (Service_Router s)) = 0%nat →
  handled s log (handleIndexPage env s log).
Proof.
  intros Hopen. unfold handleIndexPage, handled.
  destruct (ReadFile env _) as [buffer|];
    (destruct (template_Parse env _); cbn [negb];
     [destruct (template_Execute env _ _) as [page|];
      [rewrite respond_and_close by done|]|]);
    simpl; (split; [rewrite <- ?app_assoc; by eexists|]); eauto.
Qed.

Lemma handleAboutPage_handled (env : Env) (s : Service) (log : list log_entry) :
  closes (Router_Conn (Service_Router s)) = 0%nat →
  handled s log (handleAboutPage env s log).
Proof.
  intros Hopen. unfold handleAboutPage, handled.
  destruct (ReadFile env _) as [buffer|]; rewrite respond_and_close by done;
    simpl; (split; [rewrite <- ?app_assoc; first [by eexists | by exists []; rewrite app_nil_r]|]); eauto.
Qed.

Lemma handleInputData_handled (env : Env) (s : Service) (log : list log_entry) :
  closes (Router_Conn (Service_Router s)) = 0%nat →
  handled s log (handleInputData env s log).
Proof.
  intros Hopen. unfold handleInputData, handled.
  destruct (json_Unmarshal env _) as [input|].
  - rewrite respond_and_close by done. simpl.
    split; [rewrite <- app_assoc; by eexists|]. eauto.
  - simpl. split; [rewrite <- app_assoc; by eexists|]. eauto.
Qed.

Lemma let_pair {A B} (p : A * B) : (let '(a, b) := p in (a, b)) = p.
Proof. by destruct p. Qed.

Lemma Mux_handled (env : Env) (r : Router) (log : list log_entry) :
  closes (Router_Conn r) = 0%nat →
  handled (NewService r) log (Mux env r log).
Proof.
  intros Hopen. unfold Mux.
  repeat case_bool_decide; rewrite ?let_pair;
    try match goal with
    | H : ?x = _, H' : ?x = _ |- _ => rewrite H in H'; discriminate
    end.
  all: first [ by apply handleIndexPage_handled
             | by apply handleAboutPage_handled
             | by apply handleInputData_handled
             | split; [by exists []; rewrite app_nil_r|by left] ].
Qed.

(** X11. Whatever the request and the environment, a run of
    [handleAccept] that does not panic leaves the connection either as it
    was, or with one response of status 200 written to it and closed
    once; no other status is ever sent, and the log only grows. *)
Theorem handleAccept_one_answer (env : Env) (conn conn' : Conn)
    (log log' : list log_entry) :
  closes conn = 0%nat →
  handleAccept env conn log = Ok (conn', log') →
  (∃ more, log' = log ++ more)
  ∧ (conn' = conn
     ∨ ∃ data contentType,
         conn' = answered conn (NewResponse 200 data contentType)).
Proof.
  intros Hopen. unfold handleAccept.
  destruct (NewRequest conn) as [req|err|p]; [|by intros [= <- <-]; eauto|done].
  pose proof (Mux_handled env (NewRouter conn req) log Hopen) as [Hlog Hconn].
  destruct (Mux env _ log) as [s l]. intros [= <- <-]. by split.
Qed.

Lemma handleAccept_one_answer_witness :
  (∃ more, [LogBody "abc"; LogInput "abc"] = [] ++ more)
  ∧ (answered sample_conn (NewResponse 200 "success" "application/json")
     = sample_conn
     ∨ ∃ data contentType,
         answered sample_conn (NewResponse 200 "success" "application/json")
         = answered sample_conn (NewResponse 200 data contentType)).
Proof.
  apply (handleAccept_one_answer sample_env sample_conn _ [] _ eq_refl).
  unfold handleAccept. rewrite sample_run.
  rewrite Mux_input by done. unfold handleInputData.
  cbn [NewService NewRouter Service_Router Router_Req Service_Store Body
       json_Unmarshal sample_env].
  rewrite bool_decide_eq_true_2 by done.
  rewrite respond_and_close by done. done.
Defined.

(** ** The version token *)

Lemma last_visible (a b : gostring) :
  b ≠ [] → Forall visible b →
  match rev (a ++ b) with [] => True | c :: _ => visible c end.
Proof.
  intros Hne Hb. destruct b as [|c b' _] using rev_ind; [done|].
  rewrite app_assoc, rev_unit. by apply Forall_app in Hb as [_ [Hc _]%Forall_cons].
Qed.

Lemma request_line_any_version (method uri version : gostring) :
  method ≠ [] → Forall visible method → Forall visible uri →
  version ≠ [] → Forall visible version →
  strings.Split (strings.TrimSpace (method ++ " " ++ uri ++ " " ++ version)) " "
  = [method; uri; version].
Proof.
  intros Hne Hm Hu Hnv Hv.
  rewrite TrimSpace_outer_visible.
  - change (method ++ " " ++ uri ++ " " ++ version)
      with (method ++ " "%char :: uri ++ " "%char :: version).
    rewrite !Split_cut by (by apply visible_not_space_char).
    by rewrite Split_whole by (by apply visible_not_space_char).
  - destruct Hm; [done|]. done.
  - replace (method ++ " " ++ uri ++ " " ++ version)
      with ((method ++ " " ++ uri ++ " ") ++ version)
      by (by rewrite <- !app_assoc).
    by apply last_visible.
Qed.

Lemma request_line_no_version (method uri : gostring) :
  method ≠ [] → Forall visible method → uri ≠ [] → Forall visible uri →
  strings.Split (strings.TrimSpace (method ++ " " ++ uri)) " " = [method; uri].
Proof.
  intros Hne Hm Hnu Hu.
  rewrite TrimSpace_outer_visible.
  - change (method ++ " " ++ uri) with (method ++ " "%char :: uri).
    rewrite Split_cut by (by apply visible_not_space_char).
    by rewrite Split_whole by (by apply visible_not_space_char).
  - destruct Hm; [done|]. done.
  - replace (method ++ " " ++ uri) with ((method ++ " ") ++ uri)
      by (by rewrite <- !app_assoc).
    by apply last_visible.
Qed.

(** The parser on a stream whose first line is [l], once the tokens of
    that line are known. *)
Lemma NewRequest_first_line (l rest method uri : gostring)
    (tokens : list gostring) (e : io_error) (out : gostring) (n : nat) :
  LF ∉ l →
  strings.Split (strings.TrimSpace l) " " = method :: uri :: tokens →
  NewRequest (mkConn (l ++ CRLF ++ rest) e out n)
  = ('(headers, reader) ← readHeaders (mkReader rest e) ∅;
     reqBody ← readBody headers reader;
     Ok (mkReq method uri headers reqBody)).
Proof.
  intros Hl Hsplit. unfold NewRequest, readHead, NewReader.
  cbn [incoming hangup].
  change (l ++ CRLF ++ rest) with (l ++ [CR] ++ LF :: rest).
  rewrite app_assoc, ReadString_line.
  2:{ rewrite elem_of_app, list_elem_of_singleton. intros [?|?]; done. }
  rewrite <- app_assoc. change ([CR] ++ [LF]) with CRLF.
  cbv zeta. rewrite TrimSuffix_app, Hsplit. simpl.
  by destruct (readHeaders _ _) as [[h r]| |].
Qed.

(** X12. The third token of the request line is not looked at: with any
    version token, or with none, the parser returns what it returns for
    the same request with [HTTP/1.1]. *)
Theorem NewRequest_any_version (method uri version rest : gostring)
    (e : io_error) (out : gostring) (n : nat) :
  method ≠ [] → Forall visible method → uri ≠ [] → Forall visible uri →
  version ≠ [] → Forall visible version →
  NewRequest (mkConn (method ++ " " ++ uri ++ " " ++ version ++ CRLF ++ rest)
                e out n)
  = NewRequest (mkConn (method ++ " " ++ uri ++ " HTTP/1.1" ++ CRLF ++ rest)
                  e out n)
  ∧ NewRequest (mkConn (method ++ " " ++ uri ++ CRLF ++ rest) e out n)
    = NewRequest (mkConn (method ++ " " ++ uri ++ " HTTP/1.1" ++ CRLF ++ rest)
                    e out n).
Proof.
  intros Hne Hm Hnu Hu Hnv Hv.
  assert (LF ∉ method ++ " " ++ uri) as Hl.
  { rewrite !not_elem_of_app. split_and!; try (by apply visible_not_LF).
    compute_done. }
  assert (∀ v : gostring, v ≠ [] → Forall visible v →
    NewRequest (mkConn (method ++ " " ++ uri ++ " " ++ v ++ CRLF ++ rest) e out n)
    = ('(headers, reader) ← readHeaders (mkReader rest e) ∅;
       reqBody ← readBody headers reader;
       Ok (mkReq method uri headers reqBody))) as Hany.
  { intros v Hnv' Hv'.
    replace (method ++ " " ++ uri ++ " " ++ v ++ CRLF ++ rest)
      with ((method ++ " " ++ uri ++ " " ++ v) ++ CRLF ++ rest)
      by (by rewrite <- !app_assoc).
    apply (NewRequest_first_line _ _ _ _ [v]).
    - rewrite !not_elem_of_app.
      split_and!; try (by apply visible_not_LF); compute_done.
    - by apply request_line_any_version. }
  split.
  - rewrite Hany by done. symmetry. apply (Hany "HTTP/1.1"); [done|literal].
  - replace (method ++ " " ++ uri ++ CRLF ++ rest)
      with ((method ++ " " ++ uri) ++ CRLF ++ rest)
      by (by rewrite <- !app_assoc).
    rewrite (NewRequest_first_line _ _ method uri []);
      [|done|by apply request_line_no_version].
    symmetry. apply (Hany "HTTP/1.1"); [done|literal].
Qed.

Lemma NewRequest_any_version_witness :
  NewRequest (fresh_conn ("GET" ++ " " ++ "/about" ++ " " ++ "FTP/0.3" ++ CRLF ++ CRLF))
  = NewRequest (fresh_conn ("GET" ++ " " ++ "/about" ++ " HTTP/1.1" ++ CRLF ++ CRLF))
  ∧ NewRequest (fresh_conn ("GET" ++ " " ++ "/about" ++ CRLF ++ CRLF))
    = NewRequest (fresh_conn ("GET" ++ " " ++ "/about" ++ " HTTP/1.1" ++ CRLF ++ CRLF)).
Proof.
  apply (NewRequest_any_version "GET" "/about" "FTP/0.3" CRLF EOF [] 0);
    literal.
Defined.

(** * The serializer and the parser together *)

Lemma digits_value_digits (s : gostring) (acc n : Z) :
  digits_value s acc = Some n → Forall (λ c, strconv.isDigit c = true) s.
Proof.
  revert acc. induction s as [|c s IH]; intros acc Hv; [constructor|].
  simpl in Hv. destruct (strconv.isDigit c) eqn:Hc; [|done].
  constructor; [done|by eapply IH].
Qed.

Lemma isDigit_visible (c : ascii) : strconv.isDigit c = true → visible c.
Proof.
  unfold strconv.isDigit, visible.
  intros [?%Z.leb_le ?%Z.leb_le]%andb_true_iff.
  change (code "0") with 48 in *. change (code "9") with 57 in *. lia.
Qed.

(** The digits [%d] prints for a number that is not negative. *)
Lemma Itoa_visible (i : Z) :
  0 ≤ i → strconv.Itoa i ≠ [] ∧ Forall visible (strconv.Itoa i).
Proof.
  intros Hi. pose proof (Itoa_decimal_value i Hi) as Hv.
  unfold decimal_value in Hv. destruct (strconv.Itoa i) as [|c s] eqn:Hs; [done|].
  split; [done|]. apply digits_value_digits in Hv.
  eapply Forall_impl; [exact Hv|]. apply isDigit_visible.
Qed.

(** X13. A response, from its header block on, is read back by the
    header loop and the body step of the parser: the two headers come out
    under their names, the Content-Length as the decimal number of bytes
    of the body, and the body read is the body sent. The content type has
    no line feed in it and the body fits a buffer. *)
Theorem NewResponse_read_back (status : Z) (data contentType : gostring)
    (e : io_error) :
  LF ∉ contentType →
  len data ≤ maxAlloc →
  ∃ tail headers,
    NewResponse status data contentType
    = "HTTP/1.1 " ++ strconv.Itoa status ++ " " ++ StatusText status ++ CRLF
      ++ tail
    ∧ readHeaders (mkReader tail e) ∅ = Ok (headers, mkReader data e)
    ∧ headers !! ("Content-Type" : gostring)
      = Some (strings.TrimSpace contentType)
    ∧ headers !! ("Content-Length" : gostring)
      = Some (strconv.Itoa (len data))
    ∧ readBody headers (mkReader data e) = Ok data.
Proof.
  intros Hct Hfit.
  assert (0 ≤ len data) as Hlen by (unfold len; lia).
  destruct (Itoa_visible (len data) Hlen) as [Hne Hvis].
  set (digits := strconv.Itoa (len data)) in *.
  exists ("Content-Type" ++ ":"%char :: (" "%char :: contentType) ++ CRLF ++
          "Content-Length" ++ ":"%char :: (" "%char :: digits) ++ CRLF ++
          CRLF ++ data).
  exists (<[("Content-Length" : gostring) := digits]>
            (<[("Content-Type" : gostring) := strings.TrimSpace contentType]> ∅)).
  split_and!.
  - unfold NewResponse. fold digits. by rewrite <- !app_assoc.
  - rewrite readHeaders_field;
      [|compute_done|by rewrite not_elem_of_cons|compute_done].
    rewrite readHeaders_field;
      [|compute_done| |compute_done].
    2:{ rewrite not_elem_of_cons. split; [done|by apply visible_not_LF]. }
    rewrite readHeaders_end_marker. do 2 f_equal.
    change (" "%char :: digits) with (" " ++ digits).
    rewrite TrimSpace_leading_space by (by apply Forall_visible_outer).
    by f_equal.
  - by rewrite lookup_insert_ne, lookup_insert_eq.
  - by rewrite lookup_insert_eq.
  - unfold readBody. rewrite lookup_insert_eq.
    unfold digits. rewrite Atoi_Itoa by (unfold maxAlloc in Hfit; lia).
    unfold len. rewrite make_bytes_fits by done. cbn [mbind outcome_bind].
    by rewrite ReadFull_exact.
Qed.

Lemma NewResponse_read_back_witness :
  ∃ tail headers,
    NewResponse 200 "success" "application/json"
    = "HTTP/1.1 " ++ strconv.Itoa 200 ++ " " ++ StatusText 200 ++ CRLF ++ tail
    ∧ readHeaders (mkReader tail EOF) ∅ = Ok (headers, mkReader "success" EOF)
    ∧ headers !! ("Content-Type" : gostring)
      = Some (strings.TrimSpace "application/json")
    ∧ headers !! ("Content-Length" : gostring)
      = Some (strconv.Itoa (len ("success" : gostring)))
    ∧ readBody headers (mkReader "success" EOF) = Ok ("success" : gostring).
Proof.
  apply (NewResponse_read_back 200 "success" "application/json" EOF).
  - compute_done.
  - vm_compute. discriminate.
Defined.
